(** * Gen3D: the generated-code pipeline of [goalie2013/3d-models-glb]

    A shallow embedding of [src/utils/threeHelpers.ts],
    [src/components/ScenePreview.tsx], [src/services/geminiService.ts],
    [src/App.tsx] and the state of [src/components/ModelViewer.tsx],
    together with the small part of the JavaScript, three.js and React
    semantics these files rely on.

    - JavaScript strings are sequences of UTF-16 code units.
    - A computation that may raise is a function from a state to a
      completion (a value or a thrown error) and the state it leaves.
    - THREE.Object3D nodes are trees that carry the [id] three.js gives each
      object; materials and geometry buffers live in a store, so that two
      meshes can share one.  A scene is a value: a generated program does not
      reach into a scene it returned earlier.
    - A React component is the state of its instance and a function for each
      moment of its life (render by the parent, render of its own, unmount);
      an effect runs after the render in which one of its dependencies
      changed, after the function its previous run returned, children
      first.
    - What the host cannot express here (the JavaScript compiler behind
      [new Function], [String.prototype.toLowerCase] outside ASCII,
      [JSON.stringify], [GLTFExporter]) is the interface [Runtime]; the
      model behind [generate3DModelCode] is the interface [GenAI]. *)

From stdpp Require Import gmap list.
From Stdlib Require Import ZArith NArith String Ascii DecimalString QArith.

Set Warnings "-register-all".

Open Scope N_scope.
Open Scope list_scope.

(** ** JavaScript values that the sources handle *)

(** A string: its UTF-16 code units. *)
Definition JsString : Type := list N.

Fixpoint js (s : string) : JsString :=
  match s with
  | EmptyString => []
  | String a r => N_of_ascii a :: js r
  end.

(** [Number.prototype.toString] of a non-negative integer. *)
Definition number_toString (n : N) : JsString :=
  js (NilZero.string_of_uint (N.to_uint n)).

(** Truthiness of a string: only the empty string is falsy. *)
Definition truthy (s : JsString) : bool :=
  match s with [] => false | _ :: _ => true end.

(** WhiteSpace and LineTerminator code units, as [String.prototype.trim]
    strips them. *)
Definition isWhiteSpace (c : N) : bool :=
  (c =? 9) || (c =? 10) || (c =? 11) || (c =? 12) || (c =? 13) || (c =? 32)
  || (c =? 160) || (c =? 5760) || ((8192 <=? c) && (c <=? 8202))
  || (c =? 8232) || (c =? 8233) || (c =? 8239) || (c =? 8287)
  || (c =? 12288) || (c =? 65279).

Fixpoint trimStart (s : JsString) : JsString :=
  match s with
  | c :: r => if isWhiteSpace c then trimStart r else s
  | [] => []
  end.

Definition trimEnd (s : JsString) : JsString := rev (trimStart (rev s)).

Definition trim (s : JsString) : JsString := trimEnd (trimStart s).

Definition isDigit (c : N) : bool := (48 <=? c) && (c <=? 57).
Definition isUpper (c : N) : bool := (65 <=? c) && (c <=? 90).
Definition isLower (c : N) : bool := (97 <=? c) && (c <=? 122).
Definition isAscii (c : N) : bool := c <? 128.

(** The class [[a-z0-9]] under the flag [i] and without the flag [u]: case
    folding never maps a code unit of 128 or more onto an ASCII one, so the
    class holds the ASCII letters and digits and nothing else. *)
Definition isAlnum (c : N) : bool := isLower c || isUpper c || isDigit c.

Definition underscore : N := 95.

(** [s.replace(/[^a-z0-9]/gi, '_')]: the pattern has the flag [g] and matches
    one code unit at a time. *)
Definition replace_non_alnum (s : JsString) : JsString :=
  map (fun c => if isAlnum c then c else underscore) s.

Definition asciiLower (c : N) : N := if isUpper c then c + 32 else c.

(** [s.substring(0, n)] *)
Definition substring0 (n : nat) (s : JsString) : JsString := take n s.

(** What is thrown: the name of the error and its message. *)
Record Thrown := Error { error_name : string; error_message : string }.

Inductive Completion (A : Type) : Type :=
| Normal (a : A)
| Throw (e : Thrown).
Arguments Normal {A} a.
Arguments Throw {A} e.

(** ** Computations over a state that may throw *)

Definition M (S A : Type) : Type := S -> Completion A * S.

Definition ret {S A} (a : A) : M S A := fun s => (Normal a, s).

Definition throw {S A} (e : Thrown) : M S A := fun s => (Throw e, s).

Definition bind {S A B} (m : M S A) (k : A -> M S B) : M S B :=
  fun s =>
    match m s with
    | (Normal a, s') => k a s'
    | (Throw e, s') => (Throw e, s')
    end.

(** [try { body } catch (error) { handler }] *)
Definition try_catch {S A} (body : M S A) (handler : Thrown -> M S A) : M S A :=
  fun s =>
    match body s with
    | (Normal a, s') => (Normal a, s')
    | (Throw e, s') => handler e s'
    end.

Definition modify {S} (f : S -> S) : M S unit := fun s => (Normal tt, f s).

Definition gets {S A} (f : S -> A) : M S A := fun s => (Normal (f s), s).

(** Runs a computation on a component [T] of the state [S]. *)
Definition zoom {S T A} (get : S -> T) (set : T -> S -> S) (m : M T A) : M S A :=
  fun s => let '(r, t) := m (get s) in (r, set t s).

Declare Scope js_scope.
Delimit Scope js_scope with js_m.
Notation "'do' x <- m ; k" := (bind m (fun x => k))
  (at level 10, x name, m at level 100, k at level 200) : js_scope.
Notation "m ;; k" := (bind m (fun _ => k))
  (at level 100, k at level 200, right associativity) : js_scope.
Open Scope js_scope.

(** [for (const x of xs) f(x)] and [xs.forEach(f)] *)
Fixpoint forEach {S A} (f : A -> M S unit) (xs : list A) : M S unit :=
  match xs with
  | [] => ret tt
  | x :: r => f x ;; forEach f r
  end.

(** ** three.js objects *)

(** [Mesh.material] is one material or an array of materials. *)
Inductive MaterialSlot :=
| Single (material : nat)
| Multi (materials : list nat).

(** The class of an [Object3D], as far as [instanceof] in the sources can
    tell: a [THREE.Group], a [THREE.Mesh] (with the references to its geometry
    and material), or any other [THREE.Object3D]. *)
Inductive Class :=
| Group
| Mesh (geometry : nat) (material : MaterialSlot)
| OtherObject3D.

Inductive Object3D := Node {
  id : nat;
  class : Class;
  children : list Object3D
}.

(** The fields of a material that the sources write, and one they do not. *)
Record Material := {
  wireframe : bool;
  needsUpdate : bool;
  color : N
}.

Global Instance Material_inhabited : Inhabited Material :=
  populate {| wireframe := false; needsUpdate := false; color := 16777215 |}.

Inductive Disposal :=
| DisposeGeometry (geometry : nat)
| DisposeMaterial (material : nat).

Inductive ConsoleEntry :=
| console_error (message : string) (error : option Thrown)
| console_warn (message : string).

Inductive BlobPart :=
| Text (text : JsString)
| Buffer (bytes : list N).

(** [new Blob([part], { type })] *)
Record Blob := {
  part : BlobPart;
  type : string
}.

(** One run of [save]: the blob behind the [href] of the link that is
    clicked, and its [download] attribute. *)
Record Download := {
  href : Blob;
  download : JsString
}.

(** Everything outside React: the store of three.js, the console and the
    files handed to the browser. *)
Record World := {
  object3DId : nat;                 (* three.js counter: the id of the next Object3D *)
  materials : gmap nat Material;
  geometries : gmap nat (list Z);   (* the vertex data of each geometry buffer *)
  disposed : list Disposal;         (* the calls of dispose(), oldest first *)
  console : list ConsoleEntry;      (* oldest first *)
  downloads : list Download         (* oldest first *)
}.

Definition set_object3DId (n : nat) (w : World) : World :=
  {| object3DId := n; materials := materials w; geometries := geometries w;
     disposed := disposed w; console := console w; downloads := downloads w |}.

Definition set_materials (m : gmap nat Material) (w : World) : World :=
  {| object3DId := object3DId w; materials := m; geometries := geometries w;
     disposed := disposed w; console := console w; downloads := downloads w |}.

Definition set_disposed (d : list Disposal) (w : World) : World :=
  {| object3DId := object3DId w; materials := materials w; geometries := geometries w;
     disposed := d; console := console w; downloads := downloads w |}.

Definition set_console (c : list ConsoleEntry) (w : World) : World :=
  {| object3DId := object3DId w; materials := materials w; geometries := geometries w;
     disposed := disposed w; console := c; downloads := downloads w |}.

Definition set_downloads (d : list Download) (w : World) : World :=
  {| object3DId := object3DId w; materials := materials w; geometries := geometries w;
     disposed := disposed w; console := console w; downloads := d |}.

Definition log (e : ConsoleEntry) : M World unit :=
  modify (fun w => set_console (console w ++ [e]) w).

(** [new THREE.Group()]: a childless group with the next id. *)
Definition new_Group : M World Object3D :=
  fun w => (Normal (Node (object3DId w) Group []), set_object3DId (S (object3DId w)) w).

(** [parent.add(child)] appends [child] to [parent.children].  three.js also
    detaches [child] from the parent it had; that parent is not part of the
    tree returned here. *)
Definition add (parent child : Object3D) : Object3D :=
  Node (id parent) (class parent) (children parent ++ [child]).

(** [Object3D.traverse(callback)]: the callback on the node itself, then the
    traversal of each child in order. *)
Fixpoint traverse {S} (callback : Object3D -> M S unit) (o : Object3D) : M S unit :=
  callback o ;;
  (fix each (cs : list Object3D) : M S unit :=
     match cs with
     | [] => ret tt
     | c :: r => traverse callback c ;; each r
     end) (children o).

(** The nodes [traverse] visits, in the order it visits them. *)
Fixpoint nodes (o : Object3D) : list Object3D :=
  o :: flat_map nodes (children o).

(** [geometry.dispose()] and [material.dispose()] *)
Definition dispose (d : Disposal) : M World unit :=
  modify (fun w => set_disposed (disposed w ++ [d]) w).

(** The materials of a slot as the sources iterate them:
    [Array.isArray(m) ? m : [m]]. *)
Definition slot_materials (m : MaterialSlot) : list nat :=
  match m with
  | Multi ms => ms
  | Single m => [m]
  end.

(** ** Values returned by generated code *)

(** The one argument generated functions are called with. *)
Inductive Namespace := THREE.

Inductive JsValue :=
| VUndefined
| VNull
| VBoolean (b : bool)
| VNumber (n : Z)
| VString (s : JsString)
| VObject                                          (* an object that is neither callable nor an Object3D *)
| VFunction (call : Namespace -> M World JsValue)  (* a callable and what a call of it does *)
| VObject3D (o : Object3D).

Definition typeof (v : JsValue) : string :=
  match v with
  | VUndefined => "undefined"
  | VNull => "object"
  | VBoolean _ => "boolean"
  | VNumber _ => "number"
  | VString _ => "string"
  | VObject => "object"
  | VFunction _ => "function"
  | VObject3D _ => "object"
  end.

(** [f(THREE)]; calling what is not callable raises a TypeError. *)
Definition invoke (f : JsValue) (ns : Namespace) : M World JsValue :=
  match f with
  | VFunction call => call ns
  | _ => throw (Error "TypeError" "generatorFunc is not a function")
  end.

Definition instanceof_Object3D (v : JsValue) : bool :=
  match v with VObject3D _ => true | _ => false end.

Definition instanceof_Group (v : JsValue) : bool :=
  match v with VObject3D (Node _ Group _) => true | _ => false end.

Definition instanceof_Mesh (v : JsValue) : bool :=
  match v with VObject3D (Node _ (Mesh _ _) _) => true | _ => false end.

(** ** What the host provides *)

Inductive Json :=
| JNull
| JBool (b : bool)
| JNumber (n : Z)
| JString (s : JsString)
| JArray (items : list Json)
| JObject (fields : list (JsString * Json)).

(** What [GLTFExporter.parse] hands to its callbacks. *)
Inductive ExportResult :=
| ArrayBuffer (bytes : list N)
| JsonDocument (gltf : Json).

Inductive ParseOutcome :=
| onDone (result : ExportResult)
| onError (error : Thrown).

Class Runtime := {
  (** [new Function(body)]: a SyntaxError, or the function whose call runs
      [body]. *)
  new_Function : JsString -> Completion (M World JsValue);
  (** [String.prototype.toLowerCase] on a string that has a code unit
      outside ASCII. *)
  unicode_toLowerCase : JsString -> JsString;
  (** [JSON.stringify(value, null, 2)] *)
  JSON_stringify : Json -> JsString;
  (** [new GLTFExporter().parse(object, onDone, onError, { binary })]: which
      callback is called, and with what. *)
  GLTFExporter_parse : Object3D -> World -> bool -> ParseOutcome
}.

Section Sources.
Context `{Runtime}.

(** [String.prototype.toLowerCase]: on ASCII it lowers the letters A to Z. *)
Definition toLowerCase (s : JsString) : JsString :=
  if forallb isAscii s then map asciiLower s else unicode_toLowerCase s.

(** ** src/utils/threeHelpers.ts *)

(** The use of a value as an [Object3D] once [instanceof] has shown it to be
    one. *)
Definition as_Object3D (v : JsValue) : M World Object3D :=
  match v with
  | VObject3D o => ret o
  | _ => throw (Error "TypeError" "not an Object3D")
  end.

(** [const wrapper = new THREE.Group(); wrapper.add(group); return wrapper;] *)
Definition wrap (group : JsValue) : M World Object3D :=
  do wrapper <- new_Group;
  do child <- as_Object3D group;
  ret (add wrapper child).

(** Lines 18 to 36 of [executeGeneratedCode]: the coercion of what the
    generated function returned into a [THREE.Group]. *)
Definition normalize (group : JsValue) : M World Object3D :=
  if negb (instanceof_Group group) && negb (instanceof_Mesh group) then
    if instanceof_Object3D group then wrap group
    else throw (Error "Error" "Function did not return a valid THREE.Group or Object3D.")
  else if instanceof_Group group then as_Object3D group
  else wrap group.

(** [new Function(`return ${code}`)()] *)
Definition evaluate (code : JsString) : M World JsValue :=
  fun w =>
    match new_Function (js "return " ++ code) with
    | Normal f => f w
    | Throw e => (Throw e, w)
    end.

Definition executeGeneratedCode (code : JsString) : M World (option Object3D) :=
  try_catch
    (do generatorFunc <- evaluate code;
     if negb (String.eqb (typeof generatorFunc) "function")
     then throw (Error "Error" "Generated code did not return a function.")
     else
       do group <- invoke generatorFunc THREE;
       do result <- normalize group;
       ret (Some result))
    (fun error =>
       log (console_error "Failed to execute 3D generation code:" (Some error)) ;;
       ret None).

Definition save (b : Blob) (filename : JsString) : M World unit :=
  modify (fun w => set_downloads (downloads w ++ [{| href := b; download := filename |}]) w).

Definition saveString (text : JsString) (filename : JsString) : M World unit :=
  save {| part := Text text; type := "text/plain" |} filename.

Definition saveArrayBuffer (buffer : list N) (filename : JsString) : M World unit :=
  save {| part := Buffer buffer; type := "application/octet-stream" |} filename.

Definition exportToBinaryGLB (object : Object3D) (filename : JsString) : M World unit :=
  do outcome <- gets (fun w => GLTFExporter_parse object w true);
  match outcome with
  | onDone (ArrayBuffer result) => saveArrayBuffer result (filename ++ js ".glb")
  | onDone (JsonDocument result) =>
      log (console_warn "Exporter did not return ArrayBuffer, falling back to JSON") ;;
      let output := JSON_stringify result in
      saveString output (filename ++ js ".gltf")
  | onError error =>
      log (console_error "An error happened during export:" (Some error))
  end.

(** ** src/components/ScenePreview.tsx *)

Definition update_material (mat : nat) (f : Material -> Material) : M World unit :=
  modify (fun w => set_materials (<[mat := f (materials w !!! mat)]> (materials w)) w).

Definition set_wireframe (v : bool) (m : Material) : Material :=
  {| wireframe := v; needsUpdate := needsUpdate m; color := color m |}.

Definition set_needsUpdate (v : bool) (m : Material) : Material :=
  {| wireframe := wireframe m; needsUpdate := v; color := color m |}.

(** The effect of [ModelObject], run when [group] or [wireframe] changed. *)
Definition ModelObject_effect (group : Object3D) (wireframe : bool) : M World unit :=
  traverse (fun child =>
    match class child with
    | Mesh _ material =>
        let materials := slot_materials material in
        forEach (fun mat =>
          update_material mat (set_wireframe wireframe) ;;
          update_material mat (set_needsUpdate true)) materials
    | _ => ret tt
    end) group.

(** A render of [ModelObject] when [group] is set, or its absence when it is
    not; [mounted] holds the dependencies [[group, wireframe]] of the last run
    of the effect.  Two groups are the same object when they have the same
    three.js id. *)
Definition ModelObject_render (group : option Object3D) (wireframe : bool)
    (mounted : option (Object3D * bool)) : M World (option (Object3D * bool)) :=
  match group with
  | None => ret None
  | Some g =>
      let unchanged :=
        match mounted with
        | Some (g', wireframe') => Nat.eqb (id g) (id g') && Bool.eqb wireframe wireframe'
        | None => false
        end in
      if unchanged then ret mounted
      else ModelObject_effect g wireframe ;; ret (Some (g, wireframe))
  end.

(** The function the effect of [GeneratedObject] returns. *)
Definition GeneratedObject_cleanup (generatedGroup : Object3D) : M World unit :=
  traverse (fun child =>
    match class child with
    | Mesh geometry material =>
        dispose (DisposeGeometry geometry) ;;
        match material with
        | Multi ms => forEach (fun m => dispose (DisposeMaterial m)) ms
        | Single m => dispose (DisposeMaterial m)
        end
    | _ => ret tt
    end) generatedGroup.

(** A mounted [GeneratedObject]. *)
Record GeneratedObject := {
  group : option Object3D;               (* useState<THREE.Group | null>(null) *)
  effect_deps : JsString * nat;          (* [code, onLoaded] at the last run of the effect *)
  effect_cleanup : option Object3D;      (* generatedGroup of the function that run returned, if it returned one *)
  modelObject : option (Object3D * bool) (* the ModelObject it renders *)
}.

Section Components.
Context {P : Type}.

(** A function over the state [P] of the component that made it; [closure_id]
    tells one closure from another, as [Object.is] does. *)
Record Closure := {
  closure_id : nat;
  closure_call : Object3D -> P -> P
}.

Definition in_world {A} (m : M World A) : M (P * World) A :=
  zoom snd (fun w s => (fst s, w)) m.

Definition in_parent (f : P -> P) : M (P * World) unit :=
  modify (fun s => (f (fst s), snd s)).

(** The effect of [GeneratedObject] with dependencies [[code, onLoaded]]. *)
Definition GeneratedObject_effect (code : JsString) (onLoaded : Closure)
    (self : GeneratedObject) : M (P * World) GeneratedObject :=
  let deps := (code, closure_id onLoaded) in
  if negb (truthy code)
  then ret {| group := group self; effect_deps := deps; effect_cleanup := None;
              modelObject := modelObject self |}
  else
    do generatedGroup <- in_world (executeGeneratedCode code);
    match generatedGroup with
    | Some g =>
        in_parent (closure_call onLoaded g) ;;
        ret {| group := Some g; effect_deps := deps; effect_cleanup := Some g;
               modelObject := modelObject self |}
    | None =>
        ret {| group := group self; effect_deps := deps; effect_cleanup := None;
               modelObject := modelObject self |}
    end.

Definition run_cleanup (self : GeneratedObject) : M World unit :=
  match effect_cleanup self with
  | Some generatedGroup => GeneratedObject_cleanup generatedGroup
  | None => ret tt
  end.

(** The body of [GeneratedObject]: [if (group) return <ModelObject ... />]. *)
Definition GeneratedObject_body (wireframe : bool) (self : GeneratedObject)
    : M World GeneratedObject :=
  do m <- ModelObject_render (group self) wireframe (modelObject self);
  ret {| group := group self; effect_deps := effect_deps self;
         effect_cleanup := effect_cleanup self; modelObject := m |}.

(** A render of [GeneratedObject] by its parent.  On the first one the state
    [group] is null and nothing is drawn.  Effects run children first; the
    effect of [GeneratedObject] runs when a dependency changed, after the
    function its previous run returned. *)
Definition GeneratedObject_render (code : JsString) (onLoaded : Closure) (wireframe : bool)
    (mounted : option GeneratedObject) : M (P * World) GeneratedObject :=
  match mounted with
  | None =>
      GeneratedObject_effect code onLoaded
        {| group := None; effect_deps := (code, closure_id onLoaded);
           effect_cleanup := None; modelObject := None |}
  | Some self =>
      do self <- in_world (GeneratedObject_body wireframe self);
      if bool_decide (effect_deps self = (code, closure_id onLoaded)) then ret self
      else
        in_world (run_cleanup self) ;;
        GeneratedObject_effect code onLoaded self
  end.

(** A mounted [ScenePreview]; its states [autoRotate] and [showGrid] only
    reach the camera controls and the grid. *)
Record ScenePreview := {
  wireframe_state : bool;                    (* useState(false) *)
  generatedObject : option GeneratedObject   (* {code && <GeneratedObject ... />} *)
}.

Definition unmount_GeneratedObject (mounted : option GeneratedObject) : M World unit :=
  match mounted with
  | Some self => run_cleanup self
  | None => ret tt
  end.

(** A render of [ScenePreview] by its parent. *)
Definition ScenePreview_render (code : JsString) (onModelReady : Closure)
    (mounted : option ScenePreview) : M (P * World) ScenePreview :=
  let self := match mounted with
              | Some self => self
              | None => {| wireframe_state := false; generatedObject := None |}
              end in
  if truthy code then
    do g <- GeneratedObject_render code onModelReady (wireframe_state self) (generatedObject self);
    ret {| wireframe_state := wireframe_state self; generatedObject := Some g |}
  else
    in_world (unmount_GeneratedObject (generatedObject self)) ;;
    ret {| wireframe_state := wireframe_state self; generatedObject := None |}.

(** A render caused by a state of the preview itself: the props are those of
    the last render, so no dependency of [GeneratedObject] changed. *)
Definition ScenePreview_rerender (self : ScenePreview) : M World ScenePreview :=
  match generatedObject self with
  | Some g =>
      do g <- GeneratedObject_body (wireframe_state self) g;
      ret {| wireframe_state := wireframe_state self; generatedObject := Some g |}
  | None => ret self
  end.

(** [onClick={() => setWireframe(!wireframe)}] *)
Definition toggleWireframe (self : ScenePreview) : ScenePreview :=
  {| wireframe_state := negb (wireframe_state self);
     generatedObject := generatedObject self |}.

Definition ScenePreview_unmount (self : ScenePreview) : M World unit :=
  unmount_GeneratedObject (generatedObject self).

(** What can happen to a [ScenePreview]: its parent renders it, with a code
    and a closure of the given identity; it renders again by itself; its
    wireframe button is clicked; it is unmounted. *)
Inductive PreviewEvent :=
| Rendered (code : JsString) (onModelReady : nat)
| Rerendered
| WireframeClicked
| Unmounted.

(** One event of a preview whose parent passes closures that all run
    [call]. *)
Definition preview_step (call : Object3D -> P -> P) (e : PreviewEvent)
    (mounted : option ScenePreview) : M (P * World) (option ScenePreview) :=
  match e, mounted with
  | Rendered code n, _ =>
      do self <- ScenePreview_render code {| closure_id := n; closure_call := call |} mounted;
      ret (Some self)
  | Rerendered, Some self =>
      do self <- in_world (ScenePreview_rerender self); ret (Some self)
  | WireframeClicked, Some self => ret (Some (toggleWireframe self))
  | Unmounted, Some self => in_world (ScenePreview_unmount self) ;; ret None
  | _, None => ret None
  end.

Fixpoint preview_run (call : Object3D -> P -> P) (es : list PreviewEvent)
    (mounted : option ScenePreview) : M (P * World) (option ScenePreview) :=
  match es with
  | [] => ret mounted
  | e :: r => do mounted <- preview_step call e mounted; preview_run call r mounted
  end.

End Components.

End Sources.

Arguments Closure : clear implicits.

(** ** src/App.tsx *)

Inductive GenerationStatus := IDLE | GENERATING | SUCCESS | ERROR.

Inductive ViewMode := generator | viewer.

Record HistoryItem := {
  item_id : JsString;
  item_prompt : JsString;
  item_code : JsString;
  createdAt : N
}.

(** The state of [App] that the generator uses; [showCode] and the state of
    the file viewer do not meet it. *)
Record App := {
  mode : ViewMode;
  prompt : JsString;
  status : GenerationStatus;
  generatedCode : JsString;
  currentModel : option Object3D;
  history : list HistoryItem;
  abortControllerRef : option nat   (* useRef<AbortController | null>(null) *)
}.

Definition setMode (v : ViewMode) (a : App) : App :=
  {| mode := v; prompt := prompt a; status := status a; generatedCode := generatedCode a;
     currentModel := currentModel a; history := history a;
     abortControllerRef := abortControllerRef a |}.

Definition setPrompt (v : JsString) (a : App) : App :=
  {| mode := mode a; prompt := v; status := status a; generatedCode := generatedCode a;
     currentModel := currentModel a; history := history a;
     abortControllerRef := abortControllerRef a |}.

Definition setStatus (v : GenerationStatus) (a : App) : App :=
  {| mode := mode a; prompt := prompt a; status := v; generatedCode := generatedCode a;
     currentModel := currentModel a; history := history a;
     abortControllerRef := abortControllerRef a |}.

Definition setGeneratedCode (v : JsString) (a : App) : App :=
  {| mode := mode a; prompt := prompt a; status := status a; generatedCode := v;
     currentModel := currentModel a; history := history a;
     abortControllerRef := abortControllerRef a |}.

Definition setCurrentModel (v : option Object3D) (a : App) : App :=
  {| mode := mode a; prompt := prompt a; status := status a; generatedCode := generatedCode a;
     currentModel := v; history := history a;
     abortControllerRef := abortControllerRef a |}.

Definition setHistory (v : list HistoryItem) (a : App) : App :=
  {| mode := mode a; prompt := prompt a; status := status a; generatedCode := generatedCode a;
     currentModel := currentModel a; history := v;
     abortControllerRef := abortControllerRef a |}.

Definition set_abortControllerRef (v : option nat) (a : App) : App :=
  {| mode := mode a; prompt := prompt a; status := status a; generatedCode := generatedCode a;
     currentModel := currentModel a; history := history a;
     abortControllerRef := v |}.

(** The page: [App], the preview it renders, the AbortControllers it made,
    the calls of [handleGenerate] that wait for the generation service, and
    the world. *)
Record System := {
  app : App;
  renders : nat;                  (* renders of App so far: names the onModelReady closure of the last one *)
  preview : option ScenePreview;  (* the mounted ScenePreview *)
  aborted : gset nat;             (* the controllers whose signal is aborted *)
  controllers : nat;              (* the controllers created so far *)
  awaiting : gmap nat JsString;   (* suspended handleGenerate calls: controller and prompt of each *)
  world : World
}.

Definition set_app (v : App) (s : System) : System :=
  {| app := v; renders := renders s; preview := preview s; aborted := aborted s;
     controllers := controllers s; awaiting := awaiting s; world := world s |}.

Definition set_renders (v : nat) (s : System) : System :=
  {| app := app s; renders := v; preview := preview s; aborted := aborted s;
     controllers := controllers s; awaiting := awaiting s; world := world s |}.

Definition set_preview (v : option ScenePreview) (s : System) : System :=
  {| app := app s; renders := renders s; preview := v; aborted := aborted s;
     controllers := controllers s; awaiting := awaiting s; world := world s |}.

Definition set_aborted (v : gset nat) (s : System) : System :=
  {| app := app s; renders := renders s; preview := preview s; aborted := v;
     controllers := controllers s; awaiting := awaiting s; world := world s |}.

Definition set_controllers (v : nat) (s : System) : System :=
  {| app := app s; renders := renders s; preview := preview s; aborted := aborted s;
     controllers := v; awaiting := awaiting s; world := world s |}.

Definition set_awaiting (v : gmap nat JsString) (s : System) : System :=
  {| app := app s; renders := renders s; preview := preview s; aborted := aborted s;
     controllers := controllers s; awaiting := v; world := world s |}.

Definition set_world (v : World) (s : System) : System :=
  {| app := app s; renders := renders s; preview := preview s; aborted := aborted s;
     controllers := controllers s; awaiting := awaiting s; world := v |}.

Definition in_app (f : App -> App) : M System unit :=
  modify (fun s => set_app (f (app s)) s).

Definition the_world {A} (m : M World A) : M System A := zoom world set_world m.

Definition app_and_world {A} (m : M (App * World) A) : M System A :=
  zoom (fun s => (app s, world s)) (fun aw s => set_world (snd aw) (set_app (fst aw) s)) m.

(** [new AbortController()] *)
Definition new_AbortController : M System nat :=
  fun s => (Normal (controllers s), set_controllers (S (controllers s)) s).

(** [controller.abort()] *)
Definition abort (controller : nat) : M System unit :=
  modify (fun s => set_aborted ({[controller]} ∪ aborted s) s).

(** [controller.signal.aborted] *)
Definition signal_aborted (controller : nat) : M System bool :=
  gets (fun s => bool_decide (controller ∈ aborted s)).

(** [await generate3DModelCode(prompt)]: the call is left waiting with what
    its closure holds. *)
Definition await (controller : nat) (prompt : JsString) : M System unit :=
  modify (fun s => set_awaiting (<[controller := prompt]> (awaiting s)) s).

(** [(group) => setCurrentModel(group)], made anew by each render of App. *)
Definition onModelReady (s : System) : Closure App :=
  {| closure_id := renders s;
     closure_call := fun group => setCurrentModel (Some group) |}.

Section Application.
Context `{Runtime}.

(** [handleGenerate] up to its [await]. *)
Definition handleGenerate : M System unit :=
  do prompt <- gets (fun s => prompt (app s));
  if negb (truthy (trim prompt)) then ret tt
  else
    (do current <- gets (fun s => abortControllerRef (app s));
     match current with
     | Some previous => abort previous
     | None => ret tt
     end) ;;
    do controller <- new_AbortController;
    in_app (set_abortControllerRef (Some controller)) ;;
    in_app (setStatus GENERATING) ;;
    in_app (setGeneratedCode []) ;;
    in_app (setCurrentModel None) ;;
    await controller prompt.

(** [handleGenerate] from its [await] on, once the promise has settled with
    [result]; [now1] and [now2] are what the two calls of [Date.now()]
    return. *)
Definition handleGenerate_settled (controller : nat) (prompt : JsString)
    (result : Completion JsString) (now1 now2 : N) : M System unit :=
  match result with
  | Normal code =>
      do stopped <- signal_aborted controller;
      if stopped then ret tt
      else
        in_app (setGeneratedCode code) ;;
        in_app (setStatus SUCCESS) ;;
        let newItem := {| item_id := number_toString now1; item_prompt := prompt;
                          item_code := code; createdAt := now2 |} in
        in_app (fun a => setHistory (newItem :: history a) a)
  | Throw error =>
      do stopped <- signal_aborted controller;
      if stopped then ret tt
      else
        the_world (log (console_error "" (Some error))) ;;
        in_app (setStatus ERROR)
  end ;;
  (* finally *)
  do current <- gets (fun s => abortControllerRef (app s));
  if bool_decide (current = Some controller)
  then in_app (set_abortControllerRef None)
  else ret tt.

Definition handleStop : M System unit :=
  do current <- gets (fun s => abortControllerRef (app s));
  match current with
  | Some controller =>
      abort controller ;;
      in_app (set_abortControllerRef None) ;;
      in_app (setStatus IDLE)
  | None => ret tt
  end.

Definition handleDownload : M System unit :=
  do a <- gets app;
  match currentModel a with
  | Some model =>
      let filename :=
        let sanitized := substring0 20 (toLowerCase (replace_non_alnum (prompt a))) in
        if truthy sanitized then sanitized else js "model" in
      the_world (exportToBinaryGLB model filename)
  | None => ret tt
  end.

Definition loadHistory (item : HistoryItem) : M System unit :=
  in_app (setPrompt (item_prompt item)) ;;
  in_app (setGeneratedCode (item_code item)) ;;
  in_app (setStatus SUCCESS) ;;
  in_app (setMode generator).

(** A render of [App] and of all it renders, with the effects that follow. *)
Definition render_App : M System unit :=
  modify (fun s => set_renders (S (renders s)) s) ;;
  do s <- gets (fun s => s);
  match mode (app s) with
  | generator =>
      do p <- app_and_world
                (ScenePreview_render (generatedCode (app s)) (onModelReady s) (preview s));
      modify (set_preview (Some p))
  | viewer =>
      match preview s with
      | Some p => the_world (ScenePreview_unmount p)
      | None => ret tt
      end ;;
      modify (set_preview None)
  end.

(** A render of the mounted [ScenePreview] alone. *)
Definition render_ScenePreview : M System unit :=
  do mounted <- gets preview;
  match mounted with
  | Some p =>
      do p <- the_world (ScenePreview_rerender p);
      modify (set_preview (Some p))
  | None => ret tt
  end.

Inductive Event :=
| Typed (text : JsString)                 (* the textarea, or a suggestion *)
| GenerateClicked
| StopClicked
| DownloadClicked
| HistoryClicked (item : HistoryItem)
| ModeClicked (m : ViewMode)
| WireframeToggled
| Settled (controller : nat) (result : Completion JsString) (now1 now2 : N)
| Render (of_App : bool).

Definition step (e : Event) : M System unit :=
  match e with
  | Typed text => in_app (setPrompt text)
  | GenerateClicked => handleGenerate
  | StopClicked => handleStop
  | DownloadClicked => handleDownload
  | HistoryClicked item => loadHistory item
  | ModeClicked m => in_app (setMode m)
  | WireframeToggled =>
      modify (fun s => set_preview (toggleWireframe <$> preview s) s)
  | Settled controller result now1 now2 =>
      do waiting <- gets (fun s => awaiting s !! controller);
      match waiting with
      | Some prompt =>
          modify (fun s => set_awaiting (delete controller (awaiting s)) s) ;;
          handleGenerate_settled controller prompt result now1 now2
      | None => ret tt
      end
  | Render true => render_App
  | Render false => render_ScenePreview
  end.

Fixpoint run (es : list Event) : M System unit :=
  match es with
  | [] => ret tt
  | e :: r => step e ;; run r
  end.

End Application.

(** The page before its first render. *)
Definition initial (w : World) : System :=
  {| app := {| mode := generator; prompt := []; status := IDLE; generatedCode := [];
               currentModel := None; history := []; abortControllerRef := None |};
     renders := 0; preview := None; aborted := ∅; controllers := 0;
     awaiting := ∅; world := w |}.

(** ** The rest of src/utils/threeHelpers.ts *)

Section MoreSources.
Context `{Runtime}.

(** [JSON.stringify(gltf, null, 2)] of what the exporter handed over: an
    ArrayBuffer has no enumerable property of its own. *)
Definition stringify_result (gltf : ExportResult) : JsString :=
  match gltf with
  | JsonDocument document => JSON_stringify document
  | ArrayBuffer _ => js "{}"
  end.

(** [exportToGLB]; the blob it first builds is never used. *)
Definition exportToGLB (object : Object3D) (filename : JsString) : M World unit :=
  do outcome <- gets (fun w => GLTFExporter_parse object w false);
  match outcome with
  | onDone gltf =>
      let output := stringify_result gltf in
      saveString output (filename ++ js ".gltf")
  | onError error =>
      log (console_error "An error happened during export:" (Some error))
  end.

End MoreSources.

(** ** src/services/geminiService.ts *)

(** [s.startsWith(p)] *)
Fixpoint startsWith (p s : JsString) : bool :=
  match p, s with
  | [], _ => true
  | a :: p', b :: s' => (a =? b) && startsWith p' s'
  | _ :: _, [] => false
  end.

(** The scan behind [s.replace(/p/g, '')] for a pattern [p] that is literal
    text and not empty: matches are taken from left to right and do not
    overlap; [skip] counts the code units of the current match still to be
    dropped. *)
Fixpoint remove_matches (p : JsString) (skip : nat) (s : JsString) : JsString :=
  match s with
  | [] => []
  | c :: r =>
      match skip with
      | S k => remove_matches p k r
      | O =>
          if startsWith p s then remove_matches p (List.length p - 1) r
          else c :: remove_matches p 0 r
      end
  end.

Definition remove_all (p s : JsString) : JsString := remove_matches p 0 s.

Fixpoint indexOf_from (p s : JsString) (i : Z) : Z :=
  match s with
  | [] => if startsWith p [] then i else (-1)%Z
  | _ :: r => if startsWith p s then i else indexOf_from p r (i + 1)%Z
  end.

(** [s.indexOf(p)]: the first position at which [p] occurs, or -1. *)
Definition indexOf (p s : JsString) : Z := indexOf_from p s 0.

(** [s.substring(i)] for an [i] that is not negative. *)
Definition substring_from (i : Z) (s : JsString) : JsString := drop (Z.to_nat i) s.

(** The argument of [ai.models.generateContent]. *)
Record GenerationRequest := {
  request_model : string;
  request_contents : JsString;
  request_systemInstruction : JsString;
  request_temperature : Q;
  request_maxOutputTokens : N
}.

(** What the module reaches outside itself. *)
Class GenAI := {
  (** [process.env.API_KEY] *)
  API_KEY : option JsString;
  (** The constant [SYSTEM_INSTRUCTION]. *)
  SYSTEM_INSTRUCTION : JsString;
  (** [new GoogleGenAI({ apiKey }).models.generateContent(request)], given
      the requests made before: a rejection, or a response and its [text],
      which may be undefined. *)
  generateContent :
    JsString -> list GenerationRequest -> GenerationRequest -> Completion (option JsString)
}.

(** The requests sent so far and the console, oldest first. *)
Record Remote := {
  requests : list GenerationRequest;
  remote_console : list ConsoleEntry
}.

Section Service.
Context `{GenAI}.

Definition send (apiKey : JsString) (request : GenerationRequest)
    : M Remote (option JsString) :=
  fun r =>
    (generateContent apiKey (requests r) request,
     {| requests := requests r ++ [request]; remote_console := remote_console r |}).

Definition remote_log (e : ConsoleEntry) : M Remote unit :=
  modify (fun r => {| requests := requests r; remote_console := remote_console r ++ [e] |}).

(** Lines 71 to 76 of [generate3DModelCode]: the removal of the markdown
    fences and of what precedes the function. *)
Definition cleanup (code : JsString) : JsString :=
  let code :=
    trim (remove_all (js "```") (remove_all (js "```js") (remove_all (js "```javascript") code))) in
  let funcStart := indexOf (js "(THREE)") code in
  if (-1 <? funcStart)%Z then substring_from funcStart code else code.

Definition generate3DModelCode (prompt : JsString) : M Remote JsString :=
  try_catch
    (let apiKey := API_KEY in
     if negb (match apiKey with Some key => truthy key | None => false end)
     then throw (Error "Error" "API Key is missing")
     else
       let model := "gemini-3-pro-preview"%string in
       do text <- send (default [] apiKey)
                    {| request_model := model;
                       request_contents :=
                         js "Create a high-quality, detailed Three.js procedural generator for: "
                         ++ prompt
                         ++ js ". Ensure characters are volumetric and stylized (not stick figures).";
                       request_systemInstruction := SYSTEM_INSTRUCTION;
                       request_temperature := 0.7%Q;
                       request_maxOutputTokens := 8192 |};
       let code :=
         match text with
         | Some code => if truthy code then Some (cleanup code) else Some code
         | None => None
         end in
       ret (match code with
            | Some code => if truthy code then code else []
            | None => []
            end))
    (fun error =>
       remote_log (console_error "Gemini API Error:" (Some error)) ;;
       throw error).

End Service.

(** ** The file viewer: src/App.tsx and src/components/ModelViewer.tsx *)

(** A file of the file input; the sources read its name only. *)
Record File := { file_name : JsString }.

(** A mounted [ModelViewer]. *)
Record ModelViewer := {
  autoRotate : bool;               (* useState(false) *)
  showGrid : bool;                 (* useState(true) *)
  viewer_wireframe : bool;         (* useState(false) *)
  viewer_fileUrl : option nat      (* [fileUrl] at the last run of the effect *)
}.

(** The effect of [ModelViewer]: [setAutoRotate(false); setWireframe(false)]. *)
Definition ModelViewer_effect (fileUrl : option nat) (self : ModelViewer) : ModelViewer :=
  {| autoRotate := false; showGrid := showGrid self; viewer_wireframe := false;
     viewer_fileUrl := fileUrl |}.

(** A render of [ModelViewer] by App; its effect runs on the first one and
    when [fileUrl] changed. *)
Definition ModelViewer_render (fileUrl : option nat) (mounted : option ModelViewer)
    : ModelViewer :=
  match mounted with
  | None =>
      ModelViewer_effect fileUrl
        {| autoRotate := false; showGrid := true; viewer_wireframe := false;
           viewer_fileUrl := fileUrl |}
  | Some self =>
      if bool_decide (viewer_fileUrl self = fileUrl) then self
      else ModelViewer_effect fileUrl self
  end.

(** The viewer half of the page.  An object URL is the number of the call of
    [URL.createObjectURL] that made it; as a string it is never empty. *)
Record ViewerPage := {
  uploadedFileUrl : option nat;       (* useState<string | null>(null) *)
  uploadedFileName : JsString;        (* useState('') *)
  objectURLs : list File;             (* the file behind each URL made so far *)
  revocations : list nat;             (* the calls of URL.revokeObjectURL, oldest first *)
  url_effect : option (option nat);   (* the uploadedFileUrl the effect of App last ran with *)
  modelViewer : option ModelViewer
}.

(** [URL.revokeObjectURL(url)] *)
Definition revokeObjectURL (url : nat) (s : ViewerPage) : ViewerPage :=
  {| uploadedFileUrl := uploadedFileUrl s; uploadedFileName := uploadedFileName s;
     objectURLs := objectURLs s; revocations := revocations s ++ [url];
     url_effect := url_effect s; modelViewer := modelViewer s |}.

(** [if (url) URL.revokeObjectURL(url)] *)
Definition revoke_if_set (url : option nat) (s : ViewerPage) : ViewerPage :=
  match url with
  | Some url => revokeObjectURL url s
  | None => s
  end.

Definition setUploadedFile (url : option nat) (name : JsString) (s : ViewerPage)
    : ViewerPage :=
  {| uploadedFileUrl := url; uploadedFileName := name;
     objectURLs := objectURLs s; revocations := revocations s;
     url_effect := url_effect s; modelViewer := modelViewer s |}.

(** [handleFileUpload], given [e.target.files?.[0]]. *)
Definition handleFileUpload (file : option File) (s : ViewerPage) : ViewerPage :=
  match file with
  | Some file =>
      let s := revoke_if_set (uploadedFileUrl s) s in
      let url := List.length (objectURLs s) in   (* URL.createObjectURL(file) *)
      let s := {| uploadedFileUrl := uploadedFileUrl s; uploadedFileName := uploadedFileName s;
                  objectURLs := objectURLs s ++ [file]; revocations := revocations s;
                  url_effect := url_effect s; modelViewer := modelViewer s |} in
      setUploadedFile (Some url) (file_name file) s
  | None => s
  end.

Definition clearUploadedFile (s : ViewerPage) : ViewerPage :=
  let s := revoke_if_set (uploadedFileUrl s) s in
  setUploadedFile None [] s.

Definition set_modelViewer (v : option ModelViewer) (s : ViewerPage) : ViewerPage :=
  {| uploadedFileUrl := uploadedFileUrl s; uploadedFileName := uploadedFileName s;
     objectURLs := objectURLs s; revocations := revocations s;
     url_effect := url_effect s; modelViewer := v |}.

Definition set_url_effect (v : option (option nat)) (s : ViewerPage) : ViewerPage :=
  {| uploadedFileUrl := uploadedFileUrl s; uploadedFileName := uploadedFileName s;
     objectURLs := objectURLs s; revocations := revocations s;
     url_effect := v; modelViewer := modelViewer s |}.

(** A render of App in the mode [m], as far as the viewer goes:
    [ModelViewer] is rendered in viewer mode only, and the effect of App on
    [[uploadedFileUrl]] runs when that changed, after the function its
    previous run returned, which revokes the URL that run saw. *)
Definition render_viewer (m : ViewMode) (s : ViewerPage) : ViewerPage :=
  let s :=
    match m with
    | viewer => set_modelViewer (Some (ModelViewer_render (uploadedFileUrl s) (modelViewer s))) s
    | generator => set_modelViewer None s
    end in
  match url_effect s with
  | Some seen =>
      if bool_decide (seen = uploadedFileUrl s) then s
      else set_url_effect (Some (uploadedFileUrl s)) (revoke_if_set seen s)
  | None => set_url_effect (Some (uploadedFileUrl s)) s
  end.

Definition toggleAutoRotate (self : ModelViewer) : ModelViewer :=
  {| autoRotate := negb (autoRotate self); showGrid := showGrid self;
     viewer_wireframe := viewer_wireframe self; viewer_fileUrl := viewer_fileUrl self |}.

Definition toggleShowGrid (self : ModelViewer) : ModelViewer :=
  {| autoRotate := autoRotate self; showGrid := negb (showGrid self);
     viewer_wireframe := viewer_wireframe self; viewer_fileUrl := viewer_fileUrl self |}.

(** A click on a control of [ModelViewer]: the controls are there only when
    the viewer was rendered with a [fileUrl]. *)
Definition click (toggle : ModelViewer -> ModelViewer) (self : ModelViewer) : ModelViewer :=
  match viewer_fileUrl self with
  | Some _ => toggle self
  | None => self
  end.

Inductive ViewerEvent :=
| FileChosen (file : option File)
| ClearClicked
| AutoRotateClicked
| GridClicked
| ViewerRendered (m : ViewMode).

Definition viewer_step (e : ViewerEvent) (s : ViewerPage) : ViewerPage :=
  match e with
  | FileChosen file => handleFileUpload file s
  | ClearClicked => clearUploadedFile s
  | AutoRotateClicked => set_modelViewer (click toggleAutoRotate <$> modelViewer s) s
  | GridClicked => set_modelViewer (click toggleShowGrid <$> modelViewer s) s
  | ViewerRendered m => render_viewer m s
  end.

(** The events in order, oldest first. *)
Definition viewer_run (es : list ViewerEvent) (s : ViewerPage) : ViewerPage :=
  foldl (fun s e => viewer_step e s) s es.

Definition initial_viewer : ViewerPage :=
  {| uploadedFileUrl := None; uploadedFileName := []; objectURLs := [];
     revocations := []; url_effect := None; modelViewer := None |}.

(** ** A small runtime and a few programs, for closed examples *)

(** [new THREE.Mesh(geometry, material)] *)
Definition new_Mesh (geometry : nat) (material : MaterialSlot) : M World Object3D :=
  fun w => (Normal (Node (object3DId w) (Mesh geometry material) []),
            set_object3DId (S (object3DId w)) w).

(** The example of the system instruction, with geometry 1 and material 2:
    [(THREE) => { const group = new THREE.Group(); ...; group.add(cube);
    return group; }] *)
Definition red_cube (ns : Namespace) : M World JsValue :=
  do group <- new_Group;
  do cube <- new_Mesh 1 (Single 2);
  ret (VObject3D (add group cube)).

(** [(THREE) => new THREE.Mesh(geometry, [m2, m3])] *)
Definition bare_mesh (ns : Namespace) : M World JsValue :=
  do mesh <- new_Mesh 1 (Multi [2; 3]%nat);
  ret (VObject3D mesh).

Definition sample_new_Function (body : JsString) : Completion (M World JsValue) :=
  if bool_decide (body = js "return (") then
    Throw (Error "SyntaxError" "Unexpected end of input")
  else if bool_decide (body = js "return x") then
    Normal (throw (Error "ReferenceError" "x is not defined"))
  else if bool_decide (body = js "return 1") then
    Normal (ret (VNumber 1))
  else if bool_decide (body = js "return () => { throw 0 }") then
    Normal (ret (VFunction (fun _ => throw (Error "0" ""))))
  else if bool_decide (body = js "return () => 1") then
    Normal (ret (VFunction (fun _ => ret (VNumber 1))))
  else if bool_decide (body = js "return (THREE) => new THREE.Mesh()") then
    Normal (ret (VFunction bare_mesh))
  else
    Normal (ret (VFunction red_cube)).

(** An exporter that writes groups as binary, hands back a JSON document for
    a mesh, and fails on anything else. *)
Definition sample_GLTFExporter_parse (object : Object3D) (w : World) (binary : bool)
    : ParseOutcome :=
  match class object with
  | Group => if binary then onDone (ArrayBuffer [103; 108; 84; 70])
             else onDone (JsonDocument (JObject []))
  | Mesh _ _ => onDone (JsonDocument (JObject []))
  | OtherObject3D => onError (Error "Error" "THREE.GLTFExporter: nothing to export")
  end.

Definition sample_runtime : Runtime :=
  {| new_Function := sample_new_Function;
     unicode_toLowerCase := fun s => s;
     JSON_stringify := fun _ => js "{}";
     GLTFExporter_parse := sample_GLTFExporter_parse |}.

Definition empty_world : World :=
  {| object3DId := 0; materials := ∅; geometries := ∅; disposed := [];
     console := []; downloads := [] |}.

(** A world that holds the buffer and the materials the sample programs
    use; material 3 was made with [wireframe: true]. *)
Definition sample_world : World :=
  {| object3DId := 0;
     materials := {[ 2%nat := {| wireframe := false; needsUpdate := false; color := 16711680 |};
                     3%nat := {| wireframe := true; needsUpdate := false; color := 255 |} ]};
     geometries := {[ 1%nat := [0; 1; 1]%Z ]};
     disposed := []; console := []; downloads := [] |}.

(** ** Vocabulary of the statements *)

Section Vocabulary.
Context `{Runtime}.

(** The text [code] evaluates in [w] to a function, and calling it with
    [THREE] returns [raw] and leaves the world [w']. *)
Definition Returns (code : JsString) (w : World) (raw : JsValue) (w' : World) : Prop :=
  exists f generatorFunc w1,
    new_Function (js "return " ++ code) = Normal f /\
    f w = (Normal generatorFunc, w1) /\
    typeof generatorFunc = "function"%string /\
    invoke generatorFunc THREE w1 = (Normal raw, w').

(** The ways in which the evaluation of [code] in [w] fails. *)
Inductive EvaluationFails (code : JsString) (w : World) : Prop :=
| compilation_fails e :
    new_Function (js "return " ++ code) = Throw e ->
    EvaluationFails code w
| expression_throws f e w1 :
    new_Function (js "return " ++ code) = Normal f ->
    f w = (Throw e, w1) ->
    EvaluationFails code w
| not_invocable f v w1 :
    new_Function (js "return " ++ code) = Normal f ->
    f w = (Normal v, w1) ->
    typeof v <> "function"%string ->
    EvaluationFails code w
| invocation_throws f v w1 e w2 :
    new_Function (js "return " ++ code) = Normal f ->
    f w = (Normal v, w1) ->
    invoke v THREE w1 = (Throw e, w2) ->
    EvaluationFails code w
| not_renderable raw w' :
    Returns code w raw w' ->
    instanceof_Object3D raw = false ->
    EvaluationFails code w.

End Vocabulary.

(** The calls of [dispose] that release one node: those of a mesh are its
    geometry and then each material of its slot; other nodes have none. *)
Definition release (child : Object3D) : list Disposal :=
  match class child with
  | Mesh geometry material =>
      DisposeGeometry geometry :: map DisposeMaterial (slot_materials material)
  | _ => []
  end.

(** The release of every node of a scene, in the order of [traverse]. *)
Definition releases (scene : Object3D) : list Disposal :=
  flat_map release (nodes scene).

Definition is_leaf (o : Object3D) : bool :=
  match class o with Mesh _ _ => true | _ => false end.

(** The drawable leaves of a scene: its meshes. *)
Definition leaves (scene : Object3D) : list Object3D :=
  List.filter is_leaf (nodes scene).

Definition is_DisposeGeometry (d : Disposal) : bool :=
  match d with DisposeGeometry _ => true | DisposeMaterial _ => false end.

(** The materials of the leaves of a scene, one entry per use. *)
Definition leaf_materials (scene : Object3D) : list nat :=
  flat_map (fun child =>
    match class child with
    | Mesh _ material => slot_materials material
    | _ => []
    end) (nodes scene).

(** A parent that keeps the list of the scenes it was handed by [onLoaded],
    oldest first. *)
Definition record (scene : Object3D) (loaded : list Object3D) : list Object3D :=
  loaded ++ [scene].

(** Generated programs release nothing themselves. *)
Definition programs_dispose_nothing `{Runtime} : Prop :=
  forall code w, disposed (snd (executeGeneratedCode code w)) = disposed w.

(** The scene whose release the mounted preview has registered. *)
Definition held (mounted : option ScenePreview) : list Object3D :=
  match mounted with
  | Some p =>
      match generatedObject p with
      | Some g => match effect_cleanup g with Some scene => [scene] | None => [] end
      | None => []
      end
  | None => []
  end.

Definition option_list {A} (o : option A) : list A :=
  match o with Some a => [a] | None => [] end.

(** Between two moments: [new] scenes were loaded, the scenes [sup] were
    released, and the scene held went from [before] to [after]. *)
Definition advances (before after loaded loaded' : list Object3D) (w w' : World) : Prop :=
  exists new sup,
    loaded' = loaded ++ new /\
    before ++ new = sup ++ after /\
    disposed w' = disposed w ++ flat_map releases sup.

(** What a render can do to the state [a] of the parent of a preview:
    nothing, or one call of [onLoaded] with a scene that
    [executeGeneratedCode] returned for [code]. *)
Definition publishes `{Runtime} {P} (code : JsString) (call : Object3D -> P -> P)
    (a a' : P) : Prop :=
  a' = a \/
  exists scene w1 w2,
    executeGeneratedCode code w1 = (Normal (Some scene), w2) /\ a' = call scene a.

(** The bookkeeping of the requests: a call that waits is aborted or is the
    one [abortControllerRef] holds, and every controller in use was made. *)
Definition in_order (s : System) : Prop :=
  (forall c, is_Some (awaiting s !! c) ->
     c ∈ aborted s \/ abortControllerRef (app s) = Some c) /\
  (forall c, is_Some (awaiting s !! c) -> (c < controllers s)%nat) /\
  (forall c, abortControllerRef (app s) = Some c -> (c < controllers s)%nat).

(** What two states of the page share when no handler touched a request. *)
Definition same_requests (s s' : System) : Prop :=
  aborted s' = aborted s /\ controllers s' = controllers s /\
  awaiting s' = awaiting s /\
  abortControllerRef (app s') = abortControllerRef (app s).

(** A call of [handleGenerate] that waits and was not aborted. *)
Definition live (s : System) (c : nat) : Prop :=
  is_Some (awaiting s !! c) /\ c ∉ aborted s.

(** More bookkeeping of the requests: aborted controllers were made, the
    controller [abortControllerRef] holds is live, and the status
    GENERATING comes with such a controller. *)
Definition well_kept (s : System) : Prop :=
  in_order s /\
  (forall c, c ∈ aborted s -> (c < controllers s)%nat) /\
  (forall c, abortControllerRef (app s) = Some c -> live s c) /\
  (status (app s) = GENERATING -> is_Some (abortControllerRef (app s))).

(** The events that start, stop or settle no generation. *)
Definition passive (e : Event) : bool :=
  match e with
  | GenerateClicked | StopClicked | Settled _ _ _ _ => false
  | _ => true
  end.

(** The passive events other than a click on the history. *)
Definition quiet (e : Event) : bool :=
  passive e && match e with HistoryClicked _ => false | _ => true end.

(** The infix relation on strings: [p] occurs in [s]. *)
Definition occurs (p s : JsString) : Prop := exists before after, s = before ++ p ++ after.

(** The bookkeeping of the object URLs: the URL in use was made, is not
    revoked and is that of the file whose name is shown; every other URL made
    is revoked; no name is shown without a file; what the effect of App and
    [ModelViewer] last saw was made. *)
Definition urls_kept (s : ViewerPage) : Prop :=
  (forall u, uploadedFileUrl s = Some u ->
     (u ∉ revocations s) /\
     (exists file, objectURLs s !! u = Some file /\ file_name file = uploadedFileName s)) /\
  (forall u, (u < List.length (objectURLs s))%nat -> uploadedFileUrl s <> Some u ->
     u ∈ revocations s) /\
  (uploadedFileUrl s = None -> uploadedFileName s = []) /\
  (forall u, u ∈ revocations s -> (u < List.length (objectURLs s))%nat) /\
  (forall u, url_effect s = Some (Some u) -> (u < List.length (objectURLs s))%nat) /\
  (forall v u, modelViewer s = Some v -> viewer_fileUrl v = Some u ->
     (u < List.length (objectURLs s))%nat).

(** The file name as section 6 of the specification words it: every
    character that is not alphanumeric becomes an underscore, the result is
    lower-cased and cut to 20 characters, and is "model" when empty. *)
Definition spec_filename (prompt : JsString) : JsString :=
  let replaced := map (fun c => if isAlnum c then c else underscore) prompt in
  let lowered := map asciiLower replaced in
  let truncated := take 20 lowered in
  match truncated with
  | [] => js "model"
  | _ :: _ => truncated
  end.

(** A material after [mat.wireframe = v; mat.needsUpdate = true]. *)
Definition marked (v : bool) (m : Material) : Material :=
  set_needsUpdate true (set_wireframe v m).

(** The store of materials after those of [mats] were marked in turn. *)
Definition paint (v : bool) (mats : list nat) (store : gmap nat Material) : gmap nat Material :=
  foldl (fun store mat => <[mat := marked v (store !!! mat)]> store) store mats.

(** The scene [red_cube] returns in [sample_world]. *)
Definition cube_scene : Object3D :=
  Node 0 Group [Node 1 (Mesh 1 (Single 2)) []].

(** The page after "a red cube" was typed, generated and rendered. *)
Definition cube_page : System :=
  snd (@run sample_runtime
         [Render true; Typed (js "a red cube"); GenerateClicked;
          Settled 0 (Normal (js "(THREE) => cube")) 5 6; Render true]
         (initial sample_world)).

(** The page that shows the red cube, after an entry of the history whose
    code does not compile was clicked. *)
Definition broken_page : System :=
  snd (@step sample_runtime
         (HistoryClicked {| item_id := js "5"; item_prompt := js "a red cube";
                            item_code := js "("; createdAt := 6 |})
         cube_page).

(** What [bare_mesh] returns in [sample_world], and the group that wraps
    it. *)
Definition lone_mesh : Object3D := Node 0 (Mesh 1 (Multi [2; 3]%nat)) [].

Definition wrapped_mesh : Object3D := Node 1 Group [lone_mesh].

(** A light: an Object3D that is neither a group nor a mesh. *)
Definition lone_light : Object3D := Node 0 OtherObject3D [].

(** The page in which a generation was started and has not been answered. *)
Definition waiting_page_events : list Event :=
  [Render true; Typed (js "a red cube"); GenerateClicked].

(** A page where a generation is in flight and the prompt was then blanked. *)
Definition blank_page : System :=
  {| app := {| mode := generator; prompt := js "  "; status := GENERATING;
               generatedCode := []; currentModel := None; history := [];
               abortControllerRef := Some 0%nat |};
     renders := 1; preview := None; aborted := ∅; controllers := 1;
     awaiting := {[ 0%nat := js "a red cube" ]}; world := sample_world |}.


Definition drawn_cube : GeneratedObject :=
  {| group := Some cube_scene; effect_deps := (js "(THREE) => cube", 2%nat);
     effect_cleanup := Some cube_scene; modelObject := Some (cube_scene, false) |}.

(** A service with a key, whose model answers the first request with a
    fenced program and rejects the following ones. *)
Definition sample_service : GenAI :=
  {| API_KEY := Some (js "key");
     SYSTEM_INSTRUCTION := js "You are an expert 3D Graphics Engineer";
     generateContent := fun _ sent _ =>
       match sent with
       | [] => Normal (Some (js "```javascript (THREE) => cube ```"))
       | _ :: _ => Throw (Error "ApiError" "quota exceeded")
       end |}.

(** A service whose environment holds no key. *)
Definition keyless_service : GenAI :=
  {| API_KEY := None;
     SYSTEM_INSTRUCTION := js "You are an expert 3D Graphics Engineer";
     generateContent := fun _ _ _ => Normal None |}.

Definition fresh_remote : Remote := {| requests := []; remote_console := [] |}.

(** The viewer after a file was chosen and the page rendered. *)
Definition file_chosen : list ViewerEvent :=
  [FileChosen (Some {| file_name := js "cube.glb" |}); ViewerRendered viewer].

(** * Properties *)

(** ** Computations *)

Lemma bind_eq {S A B} (m : M S A) (k : A -> M S B) s a s' :
  m s = (Normal a, s') -> bind m k s = k a s'.
Proof. intros E. unfold bind. now rewrite E. Qed.

Lemma bind_assoc {S A B C} (m : M S A) (k : A -> M S B) (l : B -> M S C) s :
  bind (bind m k) l s = bind m (fun a => bind (k a) l) s.
Proof. unfold bind. destruct (m s) as [[a|e] s']; reflexivity. Qed.

Lemma bind_ext {S A B} (m : M S A) (k k' : A -> M S B) s :
  (forall a s', k a s' = k' a s') -> bind m k s = bind m k' s.
Proof. intros E. unfold bind. destruct (m s) as [[a|e] s']; [apply E | reflexivity]. Qed.

Lemma forEach_app {S A} (f : A -> M S unit) xs ys s :
  forEach f (xs ++ ys) s = bind (forEach f xs) (fun _ => forEach f ys) s.
Proof.
  revert s. induction xs as [|x xs IH]; intros s; simpl.
  - reflexivity.
  - rewrite bind_assoc. apply bind_ext. intros _ s'. apply IH.
Qed.

(** ** Trees *)

Lemma Object3D_tree_ind (Q : Object3D -> Prop) :
  (forall i c cs, Forall Q cs -> Q (Node i c cs)) -> forall o, Q o.
Proof.
  intros Hnode. fix IH 1. intros [i c cs]. apply Hnode.
  induction cs as [|x r IHr]; constructor; [apply IH | exact IHr].
Qed.

(** [traverse] calls back on the nodes in the order of [nodes]. *)
Lemma traverse_nodes {S} (callback : Object3D -> M S unit) (o : Object3D) :
  forall s, traverse callback o s = forEach callback (nodes o) s.
Proof.
  induction o as [i c cs IH] using Object3D_tree_ind. intros s. simpl.
  apply bind_ext. intros _. clear s.
  induction IH as [|x r Hx _ IHr]; intros s1; simpl.
  - reflexivity.
  - rewrite forEach_app. unfold bind. rewrite Hx.
    destruct (forEach callback (nodes x) s1) as [[[]|e] s2]; [apply IHr | reflexivity].
Qed.

(** ** The evaluator and the normalizer *)

Section Evaluator.
Context `{Runtime}.

Lemma normalize_cases (v : JsValue) (w : World) :
  normalize v w =
  match v with
  | VObject3D o =>
      match class o with
      | Group => (Normal o, w)
      | _ => (Normal (Node (object3DId w) Group [o]), set_object3DId (S (object3DId w)) w)
      end
  | _ => (Throw (Error "Error" "Function did not return a valid THREE.Group or Object3D."), w)
  end.
Proof.
  destruct v as [| | | | | | |[i c cs]]; try reflexivity.
  destruct c; reflexivity.
Qed.

Lemma executeGeneratedCode_returns (code : JsString) (w w' : World) (raw : JsValue) :
  Returns code w raw w' ->
  executeGeneratedCode code w =
  match normalize raw w' with
  | (Normal o, w2) => (Normal (Some o), w2)
  | (Throw e, w2) =>
      (Normal None,
       set_console (console w2 ++
         [console_error "Failed to execute 3D generation code:" (Some e)]) w2)
  end.
Proof.
  intros (f & g & w1 & Hf & Hg & Ht & Hi).
  unfold executeGeneratedCode, try_catch, bind at 1, evaluate. rewrite Hf, Hg, Ht.
  simpl. unfold bind. rewrite Hi.
  destruct (normalize raw w') as [[o|e] w2]; reflexivity.
Qed.

Lemma executeGeneratedCode_fails (code : JsString) (w : World) :
  EvaluationFails code w -> exists w', executeGeneratedCode code w = (Normal None, w').
Proof.
  intros [e He | f e w1 Hf He | f v w1 Hf Hv Ht | f v w1 e w2 Hf Hv Hi | raw w' Hr Hi].
  - unfold executeGeneratedCode, try_catch, bind, evaluate. rewrite He. simpl. eauto.
  - unfold executeGeneratedCode, try_catch, bind, evaluate. rewrite Hf, He. simpl. eauto.
  - unfold executeGeneratedCode, try_catch, bind, evaluate. rewrite Hf, Hv.
    apply String.eqb_neq in Ht. rewrite Ht. simpl. eauto.
  - unfold executeGeneratedCode, try_catch, bind, evaluate. rewrite Hf, Hv.
    destruct (negb _); simpl; [eauto|]. rewrite Hi. simpl. eauto.
  - rewrite (executeGeneratedCode_returns _ _ _ _ Hr), normalize_cases.
    destruct raw; try discriminate; eauto.
Qed.

Lemma executeGeneratedCode_total (code : JsString) (w : World) :
  exists r w', executeGeneratedCode code w = (Normal r, w').
Proof.
  destruct (new_Function (js "return " ++ code)) as [f|e] eqn:Hf.
  2:{ destruct (executeGeneratedCode_fails code w) as [w' E]; eauto using compilation_fails. }
  destruct (f w) as [[v|e] w1] eqn:Hv.
  2:{ destruct (executeGeneratedCode_fails code w) as [w' E]; eauto using expression_throws. }
  destruct (string_dec (typeof v) "function") as [Ht|Ht].
  2:{ destruct (executeGeneratedCode_fails code w) as [w' E]; eauto using not_invocable. }
  destruct (invoke v THREE w1) as [[raw|e] w2] eqn:Hi.
  2:{ destruct (executeGeneratedCode_fails code w) as [w' E]; eauto using invocation_throws. }
  assert (Hr : Returns code w raw w2) by (exists f, v, w1; auto).
  rewrite (executeGeneratedCode_returns _ _ _ _ Hr).
  destruct (normalize raw w2) as [[o|e] w3]; eauto.
Qed.


(** C3. Normalization of a value that is a THREE.Group returns that very
    group, with its children, and creates nothing; so does
    [executeGeneratedCode] when the generated function returns the group. *)
Theorem normalize_keeps_a_group (o : Object3D) (w : World) :
  class o = Group ->
  normalize (VObject3D o) w = (Normal o, w) /\
  (forall code w0,
     Returns code w0 (VObject3D o) w ->
     executeGeneratedCode code w0 = (Normal (Some o), w)).
Proof.
  intros Hc.
  assert (E : normalize (VObject3D o) w = (Normal o, w))
    by (rewrite normalize_cases, Hc; reflexivity).
  split; [exact E|]. intros code w0 Hr.
  rewrite (executeGeneratedCode_returns _ _ _ _ Hr), E. reflexivity.
Qed.

(** C4. Normalization of an Object3D that is not a THREE.Group, a mesh or
    any other node, returns a group made by [new THREE.Group()] whose only
    child is that object; the id of the new group is that of no node of the
    object when these were all made earlier. *)
Theorem normalize_wraps_other_nodes (o : Object3D) (w : World) :
  class o <> Group ->
  let wrapper := Node (object3DId w) Group [o] in
  let w' := set_object3DId (S (object3DId w)) w in
  normalize (VObject3D o) w = (Normal wrapper, w') /\
  (forall code w0,
     Returns code w0 (VObject3D o) w ->
     executeGeneratedCode code w0 = (Normal (Some wrapper), w')) /\
  (Forall (fun n => (id n < object3DId w)%nat) (nodes o) ->
   id wrapper ∉ map id (nodes o)).
Proof.
  intros Hc wrapper w'.
  assert (E : normalize (VObject3D o) w = (Normal wrapper, w')).
  { rewrite normalize_cases. destruct (class o); [congruence | reflexivity..]. }
  split; [exact E|]. split.
  - intros code w0 Hr. rewrite (executeGeneratedCode_returns _ _ _ _ Hr), E. reflexivity.
  - intros Hall Hin. apply list_elem_of_fmap in Hin as (n & Hid & Hn).
    rewrite Forall_forall in Hall. specialize (Hall n Hn). simpl in Hid. lia.
Qed.

Lemma exportToBinaryGLB_total (object : Object3D) (filename : JsString) (w : World) :
  exists w', exportToBinaryGLB object filename w = (Normal tt, w').
Proof.
  unfold exportToBinaryGLB, bind, gets.
  destruct (GLTFExporter_parse object w true) as [[bytes|gltf]|error]; simpl; eauto.
Qed.

(** C8. [exportToBinaryGLB] saves the byte buffer of the exporter under
    [filename + ".glb"] with the type [application/octet-stream]; when the
    exporter hands back a JSON document instead, it warns, and saves the
    text of that document under [filename + ".gltf"]; when the exporter
    reports an error, it logs it and saves nothing.  It never throws. *)
Theorem exportToBinaryGLB_outcomes (object : Object3D) (filename : JsString) (w : World) :
  (forall bytes,
     GLTFExporter_parse object w true = onDone (ArrayBuffer bytes) ->
     exportToBinaryGLB object filename w =
     (Normal tt,
      set_downloads (downloads w ++
        [{| href := {| part := Buffer bytes; type := "application/octet-stream" |};
            download := filename ++ js ".glb" |}]) w)) /\
  (forall gltf,
     GLTFExporter_parse object w true = onDone (JsonDocument gltf) ->
     exportToBinaryGLB object filename w =
     (Normal tt,
      set_downloads (downloads w ++
        [{| href := {| part := Text (JSON_stringify gltf); type := "text/plain" |};
            download := filename ++ js ".gltf" |}])
        (set_console (console w ++
           [console_warn "Exporter did not return ArrayBuffer, falling back to JSON"]) w))) /\
  (forall error,
     GLTFExporter_parse object w true = onError error ->
     exportToBinaryGLB object filename w =
     (Normal tt,
      set_console (console w ++
        [console_error "An error happened during export:" (Some error)]) w)) /\
  (exists w', exportToBinaryGLB object filename w = (Normal tt, w')).
Proof.
  unfold exportToBinaryGLB, bind, gets.
  repeat split.
  - intros bytes E. rewrite E. reflexivity.
  - intros gltf E. rewrite E. reflexivity.
  - intros error E. rewrite E. reflexivity.
  - apply exportToBinaryGLB_total.
Qed.

End Evaluator.

(** ** The file name and the guard of [handleGenerate] *)

Lemma isAlnum_isAscii (c : N) : isAlnum c = true -> isAscii c = true.
Proof.
  unfold isAlnum, isLower, isUpper, isDigit, isAscii.
  rewrite !orb_true_iff, !andb_true_iff, !N.leb_le, N.ltb_lt. lia.
Qed.

Lemma replace_non_alnum_ascii (s : JsString) :
  forallb isAscii (replace_non_alnum s) = true.
Proof.
  induction s as [|c s IH]; simpl; [reflexivity|].
  rewrite IH, andb_true_r.
  destruct (isAlnum c) eqn:E; [now apply isAlnum_isAscii | reflexivity].
Qed.

Lemma asciiLower_sanitized (c : N) :
  let d := asciiLower (if isAlnum c then c else underscore) in
  isLower d || isDigit d || (d =? underscore) = true.
Proof.
  cbv zeta. destruct (isAlnum c) eqn:Ea.
  - unfold asciiLower. destruct (isUpper c) eqn:Eu.
    + unfold isUpper in Eu. apply andb_true_iff in Eu as [E1 E2].
      apply N.leb_le in E1, E2.
      assert (E : isLower (c + 32) = true)
        by (unfold isLower; rewrite andb_true_iff, !N.leb_le; lia).
      now rewrite E.
    + unfold isAlnum in Ea. rewrite Eu, orb_false_r in Ea.
      destruct (isLower c), (isDigit c); try discriminate; reflexivity.
  - reflexivity.
Qed.

Section Download.
Context `{Runtime}.

Lemma sanitized_filename (p : JsString) :
  (let sanitized := substring0 20 (toLowerCase (replace_non_alnum p)) in
   if truthy sanitized then sanitized else js "model") = spec_filename p.
Proof.
  unfold toLowerCase, spec_filename, substring0. rewrite replace_non_alnum_ascii.
  unfold replace_non_alnum. cbv zeta.
  destruct (take 20 _); reflexivity.
Qed.

(** C9. The name [handleDownload] exports under is the prompt with every
    character that is no ASCII letter or digit replaced by an underscore,
    lower-cased and cut to its first 20 characters, and ["model"] when that
    is empty, which is when the prompt is; it has at most 20 characters, all
    of them lower-case letters, digits or underscores. *)
Theorem handleDownload_filename (s : System) :
  let name := spec_filename (prompt (app s)) in
  handleDownload s =
  match currentModel (app s) with
  | Some model => the_world (exportToBinaryGLB model name) s
  | None => (Normal tt, s)
  end /\
  name =
  match prompt (app s) with
  | [] => js "model"
  | _ :: _ =>
      take 20 (map (fun c => if isAlnum c then asciiLower c else underscore) (prompt (app s)))
  end /\
  (List.length name <= 20)%nat /\
  Forall (fun c => isLower c || isDigit c || (c =? underscore) = true) name.
Proof.
  cbv zeta. repeat split.
  - unfold handleDownload, bind, gets.
    destruct (currentModel (app s)); [|reflexivity].
    rewrite sanitized_filename. reflexivity.
  - unfold spec_filename. cbv zeta. rewrite map_map.
    destruct (prompt (app s)) as [|c r]; [reflexivity|].
    replace (map (fun c => if isAlnum c then asciiLower c else underscore) (c :: r))
      with (map (fun c => asciiLower (if isAlnum c then c else underscore)) (c :: r))
      by (apply map_ext; intros a; destruct (isAlnum a); reflexivity).
    reflexivity.
  - unfold spec_filename.
    destruct (take 20 _) as [|c r] eqn:E; [simpl; lia|].
    rewrite <- E, length_take. lia.
  - unfold spec_filename.
    destruct (take 20 _) as [|c r] eqn:E.
    + repeat constructor.
    + rewrite <- E. apply Forall_take. rewrite map_map. apply Forall_forall.
      intros d Hd. apply list_elem_of_fmap in Hd as (c0 & -> & _).
      apply asciiLower_sanitized.
Qed.

(** C10. When the prompt is blank, [handleGenerate] returns at once: the
    whole page stays as it was, so no controller is aborted or created, no
    call is left waiting for the service, and status, generated code,
    current model and history keep their values. *)
Theorem handleGenerate_blank_prompt (s : System) :
  trim (prompt (app s)) = [] ->
  handleGenerate s = (Normal tt, s) /\ step GenerateClicked s = (Normal tt, s).
Proof.
  intros Hblank. simpl. unfold handleGenerate, bind, gets. rewrite Hblank. split; reflexivity.
Qed.

End Download.

(** ** The wireframe effect of [ModelObject] *)

Lemma set_materials_same (w : World) : set_materials (materials w) w = w.
Proof. now destruct w. Qed.

Lemma mark_material (v : bool) (mat : nat) (w : World) :
  (update_material mat (set_wireframe v) ;; update_material mat (set_needsUpdate true)) w =
  (Normal tt, set_materials (<[mat := marked v (materials w !!! mat)]> (materials w)) w).
Proof.
  unfold bind, update_material, modify. simpl.
  rewrite lookup_total_insert_eq, insert_insert_eq. reflexivity.
Qed.

Lemma paint_app (v : bool) (xs ys : list nat) (store : gmap nat Material) :
  paint v (xs ++ ys) store = paint v ys (paint v xs store).
Proof. apply foldl_app. Qed.

Lemma mark_materials (v : bool) (mats : list nat) (w : World) :
  forEach (fun mat =>
    update_material mat (set_wireframe v) ;;
    update_material mat (set_needsUpdate true)) mats w =
  (Normal tt, set_materials (paint v mats (materials w)) w).
Proof.
  revert w. induction mats as [|mat mats IH]; intros w; simpl.
  - now rewrite set_materials_same.
  - erewrite bind_eq by apply mark_material. rewrite IH. reflexivity.
Qed.

Lemma ModelObject_effect_run (group : Object3D) (v : bool) (w : World) :
  ModelObject_effect group v w =
  (Normal tt, set_materials (paint v (leaf_materials group) (materials w)) w).
Proof.
  unfold ModelObject_effect, leaf_materials. rewrite traverse_nodes.
  generalize (nodes group). intros l. revert w.
  induction l as [|child l IH]; intros w; simpl.
  - now rewrite set_materials_same.
  - rewrite paint_app.
    destruct (class child) as [|geometry material|];
      [erewrite bind_eq by reflexivity | erewrite bind_eq by apply mark_materials
      | erewrite bind_eq by reflexivity]; rewrite IH; reflexivity.
Qed.

Lemma paint_lookup (v : bool) (mats : list nat) (store : gmap nat Material) (m : nat) :
  paint v mats store !! m =
  if bool_decide (m ∈ mats)
  then Some {| wireframe := v; needsUpdate := true; color := color (store !!! m) |}
  else store !! m.
Proof.
  revert store. induction mats as [|a mats IH]; intros store; simpl.
  - reflexivity.
  - unfold paint in *. simpl. rewrite IH.
    destruct (decide (m = a)) as [->|Hne].
    + rewrite lookup_total_insert_eq, lookup_insert_eq.
      rewrite (bool_decide_eq_true_2 (a ∈ a :: mats)) by apply list_elem_of_here.
      destruct (bool_decide (a ∈ mats)); reflexivity.
    + rewrite lookup_total_insert_ne, lookup_insert_ne by congruence.
      destruct (bool_decide (m ∈ mats)) eqn:E.
      * apply bool_decide_eq_true_1 in E.
        rewrite bool_decide_eq_true_2 by (now apply list_elem_of_further). reflexivity.
      * apply bool_decide_eq_false_1 in E.
        rewrite bool_decide_eq_false_2; [reflexivity|].
        rewrite elem_of_cons. intros [?|?]; congruence.
Qed.

Lemma paint_lookup_total (v : bool) (mats : list nat) (store : gmap nat Material) (m : nat) :
  m ∈ mats ->
  paint v mats store !!! m =
  {| wireframe := v; needsUpdate := true; color := color (store !!! m) |}.
Proof.
  intros Hm. rewrite lookup_total_alt, paint_lookup, bool_decide_eq_true_2 by exact Hm.
  reflexivity.
Qed.

(** Painting over a painted store forgets the first coat. *)
Lemma paint_paint (v v' : bool) (mats : list nat) (store : gmap nat Material) :
  paint v mats (paint v' mats store) = paint v mats store.
Proof.
  apply map_eq. intros m. rewrite !paint_lookup.
  destruct (bool_decide (m ∈ mats)) eqn:E; [|reflexivity].
  apply bool_decide_eq_true_1 in E. rewrite paint_lookup_total by exact E. reflexivity.
Qed.

Lemma leaf_materials_elem (group child : Object3D) (geometry : nat) (slot : MaterialSlot)
    (mat : nat) :
  child ∈ nodes group -> class child = Mesh geometry slot -> mat ∈ slot_materials slot ->
  mat ∈ leaf_materials group.
Proof.
  intros Hc Hk Hm. unfold leaf_materials.
  apply list_elem_of_In, in_flat_map. exists child. split.
  - now apply list_elem_of_In.
  - rewrite Hk. now apply list_elem_of_In.
Qed.

(** C7. The effect of [ModelObject] completes; it gives every material of
    every mesh of the scene, whether the mesh has one material or an array,
    the wireframe flag it is run with and marks it as needing an update; it
    leaves the other materials, the geometry buffers and the record of
    disposals as they were; run twice with one flag it does what one run
    does.  [ModelObject] runs it when it mounts and when the flag changes, so
    that for the scene it shows, a run with [true] followed by a run with
    [false] gives back the world of before, and in it the flag of every
    material; so it does for any world in which the flag of every material
    of the scene is [false]. *)
Theorem wireframe_toggle (group : Object3D) :
  let applied v w := snd (ModelObject_effect group v w) in
  (forall v w, fst (ModelObject_effect group v w) = Normal tt) /\
  (forall v w child geometry slot mat,
     child ∈ nodes group -> class child = Mesh geometry slot -> mat ∈ slot_materials slot ->
     wireframe (materials (applied v w) !!! mat) = v /\
     needsUpdate (materials (applied v w) !!! mat) = true /\
     color (materials (applied v w) !!! mat) = color (materials w !!! mat)) /\
  (forall v w mat,
     mat ∉ leaf_materials group -> materials (applied v w) !! mat = materials w !! mat) /\
  (forall v w,
     geometries (applied v w) = geometries w /\ disposed (applied v w) = disposed w /\
     object3DId (applied v w) = object3DId w) /\
  (forall v w, applied v (applied v w) = applied v w) /\
  (forall v w,
     ModelObject_render (Some group) v None w = (Normal (Some (group, v)), applied v w) /\
     ModelObject_render (Some group) v (Some (group, negb v)) w =
       (Normal (Some (group, v)), applied v w)) /\
  (forall w,
     let shown := applied false w in
     applied false (applied true shown) = shown /\
     forall mat,
       wireframe (materials (applied false (applied true shown)) !!! mat) =
       wireframe (materials shown !!! mat)) /\
  (forall w,
     (forall mat, mat ∈ leaf_materials group -> wireframe (materials w !!! mat) = false) ->
     forall mat,
       wireframe (materials (applied false (applied true w)) !!! mat) =
       wireframe (materials w !!! mat)).
Proof.
  cbv zeta.
  assert (Hrun : forall v w, snd (ModelObject_effect group v w) =
            set_materials (paint v (leaf_materials group) (materials w)) w)
    by (intros; now rewrite ModelObject_effect_run).
  assert (Hpp : forall v v' w,
            snd (ModelObject_effect group v (snd (ModelObject_effect group v' w))) =
            snd (ModelObject_effect group v w)).
  { intros v v' w. rewrite !Hrun. simpl. rewrite paint_paint. reflexivity. }
  repeat split.
  - intros. now rewrite ModelObject_effect_run.
  - rewrite Hrun. simpl. erewrite paint_lookup_total by eauto using leaf_materials_elem.
    reflexivity.
  - rewrite Hrun. simpl. erewrite paint_lookup_total by eauto using leaf_materials_elem.
    reflexivity.
  - rewrite Hrun. simpl. erewrite paint_lookup_total by eauto using leaf_materials_elem.
    reflexivity.
  - intros v w mat Hm. rewrite Hrun. simpl.
    rewrite paint_lookup, bool_decide_eq_false_2 by exact Hm. reflexivity.
  - now rewrite Hrun.
  - now rewrite Hrun.
  - now rewrite Hrun.
  - intros. apply Hpp.
  - unfold ModelObject_render. simpl. unfold bind.
    rewrite ModelObject_effect_run. reflexivity.
  - unfold ModelObject_render. simpl.
    rewrite Nat.eqb_refl. destruct v; simpl; unfold bind;
      rewrite ModelObject_effect_run; reflexivity.
  - rewrite !Hpp. reflexivity.
  - intros mat. rewrite !Hpp. reflexivity.
  - intros w Hfalse mat. rewrite Hpp, Hrun. simpl.
    destruct (decide (mat ∈ leaf_materials group)) as [Hin|Hout].
    + rewrite paint_lookup_total by exact Hin. simpl. symmetry. now apply Hfalse.
    + rewrite !lookup_total_alt, paint_lookup, bool_decide_eq_false_2 by exact Hout.
      reflexivity.
Qed.

(** ** The release of superseded scenes *)

Lemma set_disposed_same (w : World) : set_disposed (disposed w) w = w.
Proof. now destruct w. Qed.

Lemma dispose_all {A} (f : A -> Disposal) (xs : list A) (w : World) :
  forEach (fun x => dispose (f x)) xs w =
  (Normal tt, set_disposed (disposed w ++ map f xs) w).
Proof.
  revert w. induction xs as [|x xs IH]; intros w; simpl.
  - now rewrite app_nil_r, set_disposed_same.
  - erewrite bind_eq by reflexivity. rewrite IH. simpl.
    now rewrite <- app_assoc.
Qed.

Lemma GeneratedObject_cleanup_run (scene : Object3D) (w : World) :
  GeneratedObject_cleanup scene w =
  (Normal tt, set_disposed (disposed w ++ releases scene) w).
Proof.
  unfold GeneratedObject_cleanup, releases. rewrite traverse_nodes.
  generalize (nodes scene). intros l. revert w.
  induction l as [|child l IH]; intros w; simpl.
  - now rewrite app_nil_r, set_disposed_same.
  - unfold release at 1.
    destruct (class child) as [|geometry [m|ms]|].
    + erewrite bind_eq by reflexivity. now rewrite IH.
    + erewrite bind_eq by reflexivity. rewrite IH. simpl.
      now rewrite <- !app_assoc.
    + erewrite bind_eq
        by (erewrite bind_eq by reflexivity; apply (dispose_all DisposeMaterial)).
      rewrite IH. simpl. now rewrite <- !app_assoc.
    + erewrite bind_eq by reflexivity. now rewrite IH.
Qed.

Lemma ModelObject_render_run (g : option Object3D) (v : bool)
    (mounted : option (Object3D * bool)) (w : World) :
  exists m w', ModelObject_render g v mounted w = (Normal m, w') /\
               disposed w' = disposed w /\ object3DId w' = object3DId w /\
               geometries w' = geometries w.
Proof.
  unfold ModelObject_render. destruct g as [g|]; [|eexists _, _; split; [reflexivity|auto]].
  match goal with |- context [if ?b then _ else _] => destruct b end.
  - eexists _, _; split; [reflexivity|auto].
  - unfold bind. rewrite ModelObject_effect_run. eexists _, _; split; [reflexivity|auto].
Qed.

Lemma GeneratedObject_body_run (v : bool) (self : GeneratedObject) (w : World) :
  exists m w',
    GeneratedObject_body v self w =
      (Normal {| group := group self; effect_deps := effect_deps self;
                 effect_cleanup := effect_cleanup self; modelObject := m |}, w') /\
    disposed w' = disposed w.
Proof.
  unfold GeneratedObject_body.
  destruct (ModelObject_render_run (group self) v (modelObject self) w)
    as (m & w' & E & Hd & _).
  exists m, w'. split; [|exact Hd]. now erewrite bind_eq by exact E.
Qed.

Lemma advances_refl (held loaded : list Object3D) (w w' : World) :
  disposed w' = disposed w -> advances held held loaded loaded w w'.
Proof.
  intros E. exists [], []. simpl. now rewrite !app_nil_r, E.
Qed.

Lemma advances_trans (a b c l1 l2 l3 : list Object3D) (w1 w2 w3 : World) :
  advances a b l1 l2 w1 w2 -> advances b c l2 l3 w2 w3 -> advances a c l1 l3 w1 w3.
Proof.
  intros (n1 & s1 & E1 & F1 & D1) (n2 & s2 & E2 & F2 & D2).
  exists (n1 ++ n2), (s1 ++ s2). repeat split.
  - now rewrite E2, E1, app_assoc.
  - now rewrite app_assoc, F1, <- app_assoc, F2, app_assoc.
  - now rewrite D2, D1, flat_map_app, app_assoc.
Qed.

(** Closes a goal about a run that loads and releases nothing. *)
Ltac nothing_happens :=
  eexists _, _, _; split; [reflexivity | now apply advances_refl].

Section Lifecycle.
Context `{Runtime}.
Hypothesis quiet : programs_dispose_nothing.

Lemma run_cleanup_run (self : GeneratedObject) (loaded : list Object3D) (w : World) :
  exists w', run_cleanup self w = (Normal tt, w') /\
    advances (option_list (effect_cleanup self)) [] loaded loaded w w'.
Proof.
  unfold run_cleanup. destruct (effect_cleanup self) as [scene|]; simpl.
  - rewrite GeneratedObject_cleanup_run. eexists; split; [reflexivity|].
    exists [], [scene]. simpl. now rewrite !app_nil_r.
  - eexists; split; [reflexivity|]. now apply advances_refl.
Qed.

Lemma GeneratedObject_effect_run (code : JsString) (n : nat) (self : GeneratedObject)
    (loaded : list Object3D) (w : World) :
  exists self' loaded' w',
    GeneratedObject_effect code {| closure_id := n; closure_call := record |} self (loaded, w) = (Normal self', (loaded', w')) /\
    advances [] (option_list (effect_cleanup self')) loaded loaded' w w'.
Proof.
  unfold GeneratedObject_effect. destruct (truthy code); simpl.
  2:{ nothing_happens. }
  destruct (executeGeneratedCode_total code w) as (r & w' & E).
  pose proof (quiet code w) as Hq. rewrite E in Hq. simpl in Hq.
  unfold bind at 1, in_world, zoom. simpl. rewrite E.
  destruct r as [scene|]; simpl.
  - eexists _, _, _; split; [reflexivity|].
    exists [scene], []. simpl. now rewrite app_nil_r.
  - nothing_happens.
Qed.

Lemma GeneratedObject_render_run (code : JsString) (n : nat) (v : bool)
    (mounted : option GeneratedObject) (loaded : list Object3D) (w : World) :
  exists self' loaded' w',
    GeneratedObject_render code {| closure_id := n; closure_call := record |} v mounted (loaded, w) =
      (Normal self', (loaded', w')) /\
    advances (match mounted with Some g => option_list (effect_cleanup g) | None => [] end)
             (option_list (effect_cleanup self')) loaded loaded' w w'.
Proof.
  unfold GeneratedObject_render. destruct mounted as [self|].
  - destruct (GeneratedObject_body_run v self w) as (m & w1 & E1 & D1).
    unfold bind at 1, in_world at 1, zoom. simpl. rewrite E1. simpl.
    match goal with |- context [bool_decide ?Q] => destruct (bool_decide Q) end.
    + nothing_happens.
    + set (self1 := {| group := group self; effect_deps := effect_deps self;
                       effect_cleanup := effect_cleanup self; modelObject := m |}).
      destruct (run_cleanup_run self1 loaded w1) as (w2 & E2 & A2).
      unfold bind at 1, in_world at 1, zoom. simpl. rewrite E2. simpl.
      destruct (GeneratedObject_effect_run code n self1 loaded w2) as (s3 & l3 & w3 & E3 & A3).
      rewrite E3.
      eexists _, _, _; split; [reflexivity|].
      eapply advances_trans; [|exact A3].
      eapply advances_trans; [|exact A2].
      now apply advances_refl.
  - destruct (GeneratedObject_effect_run code n
               {| group := None; effect_deps := (code, n); effect_cleanup := None;
                  modelObject := None |} loaded w) as (s3 & l3 & w3 & E3 & A3).
    simpl in *. rewrite E3.
    eexists _, _, _; split; [reflexivity|exact A3].
Qed.

Lemma preview_step_run (e : PreviewEvent) (mounted : option ScenePreview)
    (loaded : list Object3D) (w : World) :
  exists mounted' loaded' w',
    preview_step record e mounted (loaded, w) = (Normal mounted', (loaded', w')) /\
    advances (held mounted) (held mounted') loaded loaded' w w'.
Proof.
  destruct e as [code n| | |]; simpl.
  - unfold ScenePreview_render.
    set (self := match mounted with Some self => self | None => _ end).
    assert (Hheld : held mounted =
              match generatedObject self with
              | Some g => option_list (effect_cleanup g) | None => [] end).
    { subst self. destruct mounted as [p|]; simpl; [|reflexivity].
      destruct (generatedObject p) as [g|]; [|reflexivity].
      now destruct (effect_cleanup g). }
    rewrite Hheld. destruct (truthy code).
    + destruct (GeneratedObject_render_run code n (wireframe_state self)
                  (generatedObject self) loaded w) as (g' & l' & w' & E & A).
      unfold bind. rewrite E.
      eexists _, _, _; split; [reflexivity|].
      simpl. now destruct (effect_cleanup g').
    + unfold unmount_GeneratedObject.
      destruct (generatedObject self) as [g|].
      * destruct (run_cleanup_run g loaded w) as (w' & E & A).
        unfold bind, in_world, zoom. simpl. rewrite E.
        eexists _, _, _; split; [reflexivity|exact A].
      * nothing_happens.
  - destruct mounted as [p|]; [|nothing_happens].
    unfold ScenePreview_rerender. destruct (generatedObject p) as [g|] eqn:Eg.
    + destruct (GeneratedObject_body_run (wireframe_state p) g w) as (m & w' & E & D).
      unfold bind, in_world, zoom. simpl. rewrite E.
      eexists _, _, _; split; [reflexivity|].
      simpl. rewrite Eg. now apply advances_refl.
    + nothing_happens.
  - destruct mounted as [p|]; eexists _, _, _; (split; [reflexivity|]);
      now apply advances_refl.
  - destruct mounted as [p|]; [|nothing_happens].
    unfold ScenePreview_unmount, unmount_GeneratedObject. simpl.
    destruct (generatedObject p) as [g|].
    + destruct (run_cleanup_run g loaded w) as (w' & E & A).
      unfold bind, in_world, zoom. simpl. rewrite E.
      eexists _, _, _; split; [reflexivity|].
      now destruct (effect_cleanup g).
    + nothing_happens.
Qed.

Lemma preview_run_run (es : list PreviewEvent) (mounted : option ScenePreview)
    (loaded : list Object3D) (w : World) :
  exists mounted' loaded' w',
    preview_run record es mounted (loaded, w) = (Normal mounted', (loaded', w')) /\
    advances (held mounted) (held mounted') loaded loaded' w w'.
Proof.
  revert mounted loaded w. induction es as [|e es IH]; intros mounted loaded w; simpl.
  - nothing_happens.
  - destruct (preview_step_run e mounted loaded w) as (m1 & l1 & w1 & E1 & A1).
    destruct (IH m1 l1 w1) as (m2 & l2 & w2 & E2 & A2).
    exists m2, l2, w2. split.
    + now erewrite bind_eq by exact E1.
    + eapply advances_trans; eassumption.
Qed.

End Lifecycle.

Lemma material_releases_hold_no_geometry (ms : list nat) :
  List.filter is_DisposeGeometry (map DisposeMaterial ms) = [].
Proof. induction ms as [|m ms IH]; simpl; [reflexivity | exact IH]. Qed.

Lemma geometry_releases_of_nodes (l : list Object3D) :
  List.length (List.filter is_DisposeGeometry (flat_map release l)) =
  List.length (List.filter is_leaf l).
Proof.
  induction l as [|child l IH]; simpl; [reflexivity|].
  rewrite List.filter_app, length_app, IH.
  unfold release, is_leaf. destruct (class child) as [|geometry slot|]; simpl;
    [reflexivity | | reflexivity].
  now rewrite material_releases_hold_no_geometry.
Qed.

Lemma geometry_releases_count (scenes : list Object3D) :
  List.length (List.filter is_DisposeGeometry (flat_map releases scenes)) =
  List.length (flat_map leaves scenes).
Proof.
  induction scenes as [|scene scenes IH]; simpl; [reflexivity|].
  rewrite List.filter_app, !length_app, IH. f_equal.
  apply geometry_releases_of_nodes.
Qed.

(** C5. Whatever happens to a preview, in whatever order (renders by its
    parent with any code and closure, renders of its own, clicks, unmounts),
    the scenes it has handed to [onLoaded] are, in order, those it has
    superseded followed by the one it still holds, if it holds one; and the
    calls of [dispose] made since the start are exactly the releases of the
    superseded scenes, one after the other: for each, and in the order of
    [traverse], the geometry of every mesh and then each of its materials,
    whether the mesh has one or an array.  So each mesh of a scene is released
    once each time the scene is superseded, and there are as many releases of
    a geometry as there are meshes in the superseded scenes.  This is for
    generated programs that call no [dispose] themselves. *)
Theorem superseded_scenes_released_once `{Runtime} (es : list PreviewEvent) (w : World) :
  programs_dispose_nothing ->
  exists mounted loaded w' superseded,
    preview_run record es None ([], w) = (Normal mounted, (loaded, w')) /\
    loaded = superseded ++ held mounted /\
    disposed w' = disposed w ++ flat_map releases superseded /\
    List.length (List.filter is_DisposeGeometry (flat_map releases superseded)) =
    List.length (flat_map leaves superseded).
Proof.
  intros quiet.
  destruct (preview_run_run quiet es None [] w) as (m & l & w' & E & new & sup & El & Eh & Ed).
  exists m, l, w', sup. simpl in *. subst l.
  repeat split; auto using geometry_releases_count.
Qed.

(** ** Renders of the page *)

Section Publication.
Context `{Runtime} {P : Type}.

Lemma GeneratedObject_effect_publishes (code : JsString) (cl : Closure P)
    (self : GeneratedObject) (a : P) (w : World) :
  exists self' a' w',
    GeneratedObject_effect code cl self (a, w) = (Normal self', (a', w')) /\
    publishes code (closure_call cl) a a'.
Proof.
  unfold GeneratedObject_effect. destruct (truthy code); simpl.
  2:{ eexists _, _, _; split; [reflexivity | now left]. }
  destruct (executeGeneratedCode_total code w) as (r & w' & E).
  unfold bind at 1, in_world, zoom. simpl. rewrite E.
  destruct r as [scene|]; simpl.
  - eexists _, _, _; split; [reflexivity|]. right. eauto.
  - eexists _, _, _; split; [reflexivity | now left].
Qed.

Lemma GeneratedObject_render_publishes (code : JsString) (cl : Closure P) (v : bool)
    (mounted : option GeneratedObject) (a : P) (w : World) :
  exists self' a' w',
    GeneratedObject_render code cl v mounted (a, w) = (Normal self', (a', w')) /\
    publishes code (closure_call cl) a a'.
Proof.
  unfold GeneratedObject_render. destruct mounted as [self|].
  - destruct (GeneratedObject_body_run v self w) as (m & w1 & E1 & _).
    unfold bind at 1, in_world at 1, zoom. simpl. rewrite E1. simpl.
    match goal with |- context [bool_decide ?Q] => destruct (bool_decide Q) end.
    + eexists _, _, _; split; [reflexivity | now left].
    + match goal with |- context [run_cleanup ?x] =>
        destruct (run_cleanup_run x [] w1) as (w2 & E2 & _);
        destruct (GeneratedObject_effect_publishes code cl x a w2) as (s3 & a3 & w3 & E3 & Hp)
      end.
      unfold bind at 1, in_world at 1, zoom. simpl. rewrite E2. simpl. rewrite E3.
      eexists _, _, _; split; [reflexivity | exact Hp].
  - apply GeneratedObject_effect_publishes.
Qed.

Lemma unmount_GeneratedObject_run (mounted : option GeneratedObject) (w : World) :
  unmount_GeneratedObject mounted w =
  (Normal tt,
   set_disposed (disposed w ++
     flat_map releases
       (match mounted with Some g => option_list (effect_cleanup g) | None => [] end)) w).
Proof.
  unfold unmount_GeneratedObject, run_cleanup.
  destruct mounted as [g|]; simpl.
  - destruct (effect_cleanup g) as [scene|]; simpl.
    + now rewrite GeneratedObject_cleanup_run, app_nil_r.
    + now rewrite app_nil_r, set_disposed_same.
  - now rewrite app_nil_r, set_disposed_same.
Qed.

Lemma ScenePreview_unmount_run (p : ScenePreview) (w : World) :
  ScenePreview_unmount p w =
  (Normal tt, set_disposed (disposed w ++ flat_map releases (held (Some p))) w).
Proof.
  unfold ScenePreview_unmount. rewrite unmount_GeneratedObject_run. simpl.
  destruct (generatedObject p) as [g|]; [|reflexivity].
  now destruct (effect_cleanup g).
Qed.

Lemma ScenePreview_render_publishes (code : JsString) (cl : Closure P)
    (mounted : option ScenePreview) (a : P) (w : World) :
  exists p a' w',
    ScenePreview_render code cl mounted (a, w) = (Normal p, (a', w')) /\
    publishes code (closure_call cl) a a'.
Proof.
  unfold ScenePreview_render. destruct (truthy code).
  - match goal with |- context [GeneratedObject_render code cl ?v ?g] =>
      destruct (GeneratedObject_render_publishes code cl v g a w) as (g' & a' & w' & E & Hp)
    end.
    unfold bind. rewrite E. eexists _, _, _; split; [reflexivity | exact Hp].
  - unfold bind, in_world, zoom. simpl. rewrite unmount_GeneratedObject_run.
    eexists _, _, _; split; [reflexivity | now left].
Qed.


End Publication.

Section Page.
Context `{Runtime}.

Lemma render_App_run (s : System) :
  exists s',
    render_App s = (Normal tt, s') /\ same_requests s s' /\
    publishes (generatedCode (app s)) (fun scene => setCurrentModel (Some scene))
      (app s) (app s').
Proof.
  unfold render_App. erewrite bind_eq by reflexivity.
  erewrite bind_eq by reflexivity. simpl.
  destruct (mode (app s)).
  - match goal with |- context [ScenePreview_render ?c ?cl ?m] =>
      destruct (ScenePreview_render_publishes c cl m (app s) (world s))
        as (p & a' & w' & E & Hp)
    end.
    unfold bind, app_and_world, zoom. simpl. rewrite E. simpl.
    eexists; split; [reflexivity|]. split; [|exact Hp].
    repeat split; simpl; try reflexivity.
    destruct Hp as [->|(g & _ & _ & _ & ->)]; reflexivity.
  - destruct (preview s) as [p|]; simpl.
    + unfold bind, the_world, zoom. simpl. rewrite ScenePreview_unmount_run. simpl.
      eexists; split; [reflexivity|]. split; [now repeat split | now left].
    + eexists; split; [reflexivity|]. split; [now repeat split | now left].
Qed.

Lemma render_ScenePreview_run (s : System) :
  exists s',
    render_ScenePreview s = (Normal tt, s') /\ same_requests s s' /\ app s' = app s /\
    disposed (world s') = disposed (world s).
Proof.
  unfold render_ScenePreview. erewrite bind_eq by reflexivity.
  destruct (preview s) as [p|].
  - unfold ScenePreview_rerender. destruct (generatedObject p) as [g|].
    + destruct (GeneratedObject_body_run (wireframe_state p) g (world s)) as (m & w' & E & D).
      unfold bind, the_world, zoom. simpl. rewrite E. simpl.
      eexists; split; [reflexivity|]. now repeat split.
    + eexists; split; [reflexivity|]. now repeat split.
  - eexists; split; [reflexivity|]. now repeat split.
Qed.

End Page.

(** ** The handlers of [App] *)

Section Handlers.
Context `{Runtime}.

Lemma handleGenerate_run (s : System) :
  truthy (trim (prompt (app s))) = true ->
  handleGenerate s =
  (Normal tt,
   {| app := {| mode := mode (app s); prompt := prompt (app s); status := GENERATING;
                generatedCode := []; currentModel := None; history := history (app s);
                abortControllerRef := Some (controllers s) |};
      renders := renders s; preview := preview s;
      aborted := match abortControllerRef (app s) with
                 | Some previous => {[previous]} ∪ aborted s
                 | None => aborted s
                 end;
      controllers := S (controllers s);
      awaiting := <[controllers s := prompt (app s)]> (awaiting s);
      world := world s |}).
Proof.
  intros Ht. unfold handleGenerate, bind, gets. rewrite Ht. simpl.
  destruct (abortControllerRef (app s)); reflexivity.
Qed.

Lemma handleStop_run (s : System) :
  handleStop s =
  (Normal tt,
   match abortControllerRef (app s) with
   | Some controller =>
       {| app := setStatus IDLE (set_abortControllerRef None (app s));
          renders := renders s; preview := preview s;
          aborted := {[controller]} ∪ aborted s;
          controllers := controllers s; awaiting := awaiting s; world := world s |}
   | None => s
   end).
Proof.
  unfold handleStop, bind, gets. destruct (abortControllerRef (app s)); reflexivity.
Qed.

Lemma handleDownload_run (s : System) :
  exists w', handleDownload s = (Normal tt, set_world w' s).
Proof.
  unfold handleDownload, bind, gets. destruct (currentModel (app s)) as [model|].
  - match goal with |- context [exportToBinaryGLB ?m ?f] =>
      destruct (exportToBinaryGLB_total m f (world s)) as (w' & E)
    end.
    unfold the_world, zoom. rewrite E. eauto.
  - exists (world s). now destruct s.
Qed.

Lemma settled_run (c : nat) (p : JsString) (result : Completion JsString) (now1 now2 : N)
    (s : System) :
  awaiting s !! c = Some p ->
  step (Settled c result now1 now2) s =
  handleGenerate_settled c p result now1 now2 (set_awaiting (delete c (awaiting s)) s).
Proof. intros Ea. simpl. unfold bind at 1, gets at 1. now rewrite Ea. Qed.

Lemma settled_unknown (c : nat) (result : Completion JsString) (now1 now2 : N) (s : System) :
  awaiting s !! c = None -> step (Settled c result now1 now2) s = (Normal tt, s).
Proof. intros Ea. simpl. unfold bind at 1, gets at 1. now rewrite Ea. Qed.

Lemma handleGenerate_settled_aborted (c : nat) (p : JsString) (result : Completion JsString)
    (now1 now2 : N) (s : System) :
  c ∈ aborted s ->
  handleGenerate_settled c p result now1 now2 s =
  (Normal tt,
   if bool_decide (abortControllerRef (app s) = Some c)
   then set_app (set_abortControllerRef None (app s)) s
   else s).
Proof.
  intros Hc. unfold handleGenerate_settled, bind, signal_aborted, gets.
  destruct result; simpl; rewrite (bool_decide_eq_true_2 _ Hc); simpl;
    destruct (bool_decide _); reflexivity.
Qed.

(** A call that settles after its controller was aborted changes nothing but
    the list of the calls that wait. *)
Lemma settled_after_abort_frame (c : nat) (result : Completion JsString) (now1 now2 : N)
    (s : System) :
  c ∈ aborted s ->
  let s' := snd (step (Settled c result now1 now2) s) in
  generatedCode (app s') = generatedCode (app s) /\
  currentModel (app s') = currentModel (app s) /\
  history (app s') = history (app s) /\
  status (app s') = status (app s) /\
  preview s' = preview s /\ world s' = world s /\
  awaiting s' !! c = None.
Proof.
  intros Hc. cbv zeta.
  destruct (awaiting s !! c) as [p|] eqn:Ea.
  - rewrite (settled_run c p) by exact Ea.
    rewrite handleGenerate_settled_aborted by exact Hc.
    destruct (bool_decide _); simpl; rewrite lookup_delete_eq; now repeat split.
  - rewrite settled_unknown by exact Ea. now repeat split.
Qed.

(** What a settling call does to the bookkeeping of the requests. *)
Lemma settled_requests (c : nat) (p : JsString) (result : Completion JsString)
    (now1 now2 : N) (s : System) :
  awaiting s !! c = Some p ->
  let s' := snd (step (Settled c result now1 now2) s) in
  fst (step (Settled c result now1 now2) s) = Normal tt /\
  aborted s' = aborted s /\ controllers s' = controllers s /\
  awaiting s' = delete c (awaiting s) /\
  (abortControllerRef (app s') = abortControllerRef (app s) \/
   abortControllerRef (app s) = Some c /\ abortControllerRef (app s') = None).
Proof.
  intros Ea. cbv zeta. rewrite (settled_run c p) by exact Ea.
  unfold handleGenerate_settled, bind, modify, signal_aborted, gets, the_world, zoom, in_app,
    log.
  simpl.
  destruct result; simpl; destruct (bool_decide (c ∈ aborted s)); simpl;
    match goal with |- context [bool_decide (?x = Some c)] =>
      destruct (bool_decide_reflect (x = Some c)) as [E|E] end;
    simpl in *; auto 10.
Qed.

Lemma step_same_requests (e : Event) (s : System) :
  match e with
  | GenerateClicked | StopClicked | Settled _ _ _ _ => True
  | _ => fst (step e s) = Normal tt /\ same_requests s (snd (step e s))
  end.
Proof.
  destruct e as [text| | | |item|m| |c r n1 n2|[|]]; simpl; auto;
    try (split; [reflexivity | now repeat split]).
  - destruct (handleDownload_run s) as (w' & ->). split; [reflexivity | now repeat split].
  - destruct (render_App_run s) as (s' & -> & Hs & _). now split.
  - destruct (render_ScenePreview_run s) as (s' & -> & Hs & _). now split.
Qed.

(** No step of the page throws. *)
Lemma step_total (e : Event) (s : System) : fst (step e s) = Normal tt.
Proof.
  pose proof (step_same_requests e s) as Hs.
  destruct e as [text| | | |item|m| |c r n1 n2|b]; try (now destruct Hs).
  - simpl. destruct (truthy (trim (prompt (app s)))) eqn:Ht.
    + now rewrite handleGenerate_run.
    + unfold handleGenerate, bind, gets. now rewrite Ht.
  - simpl. now rewrite handleStop_run.
  - destruct (awaiting s !! c) as [p|] eqn:Ea.
    + now destruct (settled_requests c p r n1 n2 s Ea).
    + now rewrite settled_unknown.
Qed.

Lemma run_cons (e : Event) (es : list Event) (s : System) :
  run (e :: es) s = run es (snd (step e s)).
Proof.
  simpl. unfold bind. pose proof (step_total e s) as Ht.
  destruct (step e s) as [[[]|err] s1]; [reflexivity | discriminate].
Qed.


Lemma step_aborted_mono (e : Event) (s : System) (c : nat) :
  c ∈ aborted s -> c ∈ aborted (snd (step e s)).
Proof.
  intros Hc. pose proof (step_same_requests e s) as Hs.
  destruct e as [text| | | |item|m| |c' r n1 n2|b];
    try (destruct Hs as (_ & -> & _); exact Hc).
  - simpl. destruct (truthy (trim (prompt (app s)))) eqn:Ht.
    + rewrite handleGenerate_run by exact Ht. simpl.
      destruct (abortControllerRef (app s)); set_solver.
    + unfold handleGenerate, bind, gets. now rewrite Ht.
  - simpl. rewrite handleStop_run. simpl.
    destruct (abortControllerRef (app s)); simpl; set_solver.
  - destruct (awaiting s !! c') as [p|] eqn:Ea.
    + destruct (settled_requests c' p r n1 n2 s Ea) as (_ & -> & _). exact Hc.
    + now rewrite settled_unknown.
Qed.

Lemma run_aborted_mono (es : list Event) (s : System) (c : nat) :
  c ∈ aborted s -> c ∈ aborted (snd (run es s)).
Proof.
  revert s. induction es as [|e es IH]; intros s Hc; [exact Hc|].
  rewrite run_cons. apply IH. now apply step_aborted_mono.
Qed.

Lemma in_order_initial (w : World) : in_order (initial w).
Proof.
  repeat split; simpl; intros c Hc; try discriminate;
    rewrite lookup_empty in Hc; now destruct Hc.
Qed.

Lemma in_order_step (e : Event) (s : System) : in_order s -> in_order (snd (step e s)).
Proof.
  intros Hin. pose proof Hin as (I1 & I2 & I3).
  pose proof (step_same_requests e s) as Hs.
  destruct e as [text| | | |item|m| |c' r n1 n2|b];
    try (destruct Hs as (_ & Ea & Ec & Ew & Er);
         repeat split; intros c; rewrite ?Ea, ?Ec, ?Ew, ?Er; auto).
  - simpl. destruct (truthy (trim (prompt (app s)))) eqn:Ht.
    2:{ unfold handleGenerate, bind, gets. rewrite Ht. exact Hin. }
    rewrite handleGenerate_run by exact Ht. simpl.
    repeat split; simpl; intros c Hc.
    + destruct (decide (c = controllers s)) as [->|Hne]; [now right|].
      rewrite lookup_insert_ne in Hc by congruence. left.
      destruct (I1 c Hc) as [Ha|Hr].
      * destruct (abortControllerRef (app s)); set_solver.
      * rewrite Hr. set_solver.
    + destruct (decide (c = controllers s)) as [->|Hne]; [lia|].
      rewrite lookup_insert_ne in Hc by congruence. specialize (I2 c Hc). lia.
    + inversion Hc. lia.
  - simpl. rewrite handleStop_run. simpl.
    destruct (abortControllerRef (app s)) as [c0|] eqn:Er; [|exact Hin].
    repeat split; simpl; intros c Hc; auto; try discriminate.
    left. destruct (I1 c Hc) as [Ha|Hr]; [set_solver|].
    rewrite ?Er in Hr. inversion Hr. set_solver.
  - destruct (awaiting s !! c') as [p|] eqn:Ea.
    2:{ rewrite settled_unknown by exact Ea. exact Hin. }
    destruct (settled_requests c' p r n1 n2 s Ea) as (_ & Eab & Ec & Ew & Er).
    repeat split; intros c Hc.
    + rewrite Ew in Hc. rewrite Eab.
      destruct (decide (c = c')) as [->|Hne]; [rewrite lookup_delete_eq in Hc; now destruct Hc|].
      rewrite lookup_delete_ne in Hc by congruence.
      destruct (I1 c Hc) as [Ha|Hr]; [now left|]. right.
      destruct Er as [->|[Er _]]; [exact Hr | congruence].
    + rewrite Ew in Hc. rewrite Ec.
      destruct (decide (c = c')) as [->|Hne]; [rewrite lookup_delete_eq in Hc; now destruct Hc|].
      rewrite lookup_delete_ne in Hc by congruence. auto.
    + rewrite Ec. destruct Er as [Er|[_ Er]]; [rewrite Er in Hc; auto | congruence].
Qed.

Lemma in_order_run (es : list Event) (s : System) : in_order s -> in_order (snd (run es s)).
Proof.
  revert s. induction es as [|e es IH]; intros s Hs; [exact Hs|].
  rewrite run_cons. apply IH. now apply in_order_step.
Qed.

End Handlers.

(** ** Cancellation *)

Section Cancellation.
Context `{Runtime}.

Lemma truthy_trim (p : JsString) : trim p <> [] -> truthy (trim p) = true.
Proof. destruct (trim p); [congruence | reflexivity]. Qed.

(** Pressing stop, or starting a generation, aborts the call that waits. *)
Lemma stop_aborts (s : System) (c : nat) (stop : Event) :
  in_order s -> is_Some (awaiting s !! c) ->
  stop = StopClicked \/ (stop = GenerateClicked /\ trim (prompt (app s)) <> []) ->
  c ∈ aborted (snd (step stop s)).
Proof.
  intros (I1 & _) Hc [->|[-> Hp]]; simpl.
  - rewrite handleStop_run. simpl.
    destruct (I1 c Hc) as [Ha|Hr]; [|rewrite Hr; set_solver].
    destruct (abortControllerRef (app s)); simpl; set_solver.
  - rewrite handleGenerate_run by now apply truthy_trim. simpl.
    destruct (I1 c Hc) as [Ha|Hr]; [|rewrite Hr; set_solver].
    destruct (abortControllerRef (app s)); simpl; set_solver.
Qed.

(** A call that has settled does not wait again: controllers are not made
    twice. *)
Lemma settled_stays_settled_step (e : Event) (s : System) (c : nat) :
  (c < controllers s)%nat -> awaiting s !! c = None ->
  (c < controllers (snd (step e s)))%nat /\ awaiting (snd (step e s)) !! c = None.
Proof.
  intros Hlt Hc. pose proof (step_same_requests e s) as Hs.
  destruct e as [text| | | |item|m| |c' r n1 n2|b];
    try (destruct Hs as (_ & _ & -> & -> & _); now split).
  - simpl. destruct (truthy (trim (prompt (app s)))) eqn:Ht.
    + rewrite handleGenerate_run by exact Ht. simpl. split; [lia|].
      rewrite lookup_insert_ne by lia. exact Hc.
    + unfold handleGenerate, bind, gets. rewrite Ht. now split.
  - simpl. rewrite handleStop_run. simpl.
    destruct (abortControllerRef (app s)); now split.
  - destruct (awaiting s !! c') as [p|] eqn:Ea.
    + destruct (settled_requests c' p r n1 n2 s Ea) as (_ & _ & -> & -> & _).
      split; [exact Hlt|]. destruct (decide (c' = c)) as [->|Hne].
      * apply lookup_delete_eq.
      * rewrite lookup_delete_ne by exact Hne. exact Hc.
    + rewrite settled_unknown by exact Ea. now split.
Qed.

Lemma settled_stays_settled (es : list Event) (s : System) (c : nat) :
  (c < controllers s)%nat -> awaiting s !! c = None ->
  (c < controllers (snd (run es s)))%nat /\ awaiting (snd (run es s)) !! c = None.
Proof.
  revert s. induction es as [|e es IH]; intros s Hlt Hc; [now split|].
  rewrite run_cons. destruct (settled_stays_settled_step e s c Hlt Hc). now apply IH.
Qed.

Lemma controllers_mono_step (e : Event) (s : System) (c : nat) :
  (c < controllers s)%nat -> (c < controllers (snd (step e s)))%nat.
Proof.
  intros Hlt. pose proof (step_same_requests e s) as Hs.
  destruct e as [text| | | |item|m| |c' r n1 n2|b];
    try (destruct Hs as (_ & _ & -> & _); exact Hlt).
  - simpl. destruct (truthy (trim (prompt (app s)))) eqn:Ht.
    + rewrite handleGenerate_run by exact Ht. simpl. lia.
    + unfold handleGenerate, bind, gets. now rewrite Ht.
  - simpl. rewrite handleStop_run. simpl. now destruct (abortControllerRef (app s)).
  - destruct (awaiting s !! c') as [p|] eqn:Ea.
    + now destruct (settled_requests c' p r n1 n2 s Ea) as (_ & _ & -> & _).
    + now rewrite settled_unknown.
Qed.

Lemma controllers_mono (es : list Event) (s : System) (c : nat) :
  (c < controllers s)%nat -> (c < controllers (snd (run es s)))%nat.
Proof.
  revert s. induction es as [|e es IH]; intros s Hlt; [exact Hlt|].
  rewrite run_cons. apply IH. now apply controllers_mono_step.
Qed.

(** C6. On a page that has run any events, take a call of [handleGenerate]
    that waits for the service.  Pressing stop, or starting a generation with
    a prompt that is not blank, aborts its controller.  Whatever happens
    next, when the service then answers that call with a code, the generated
    code, the current model, the history and the status of the page, its
    preview and the world are as they were just before the answer; the call
    waits no more, and never will. *)
Theorem aborted_generation_is_discarded
    (before : list Event) (w0 : World) (c : nat) (stop : Event) (between : list Event)
    (code : JsString) (now1 now2 : N) :
  let s0 := snd (run before (initial w0)) in
  is_Some (awaiting s0 !! c) ->
  stop = StopClicked \/ (stop = GenerateClicked /\ trim (prompt (app s0)) <> []) ->
  let s1 := snd (step stop s0) in
  let s2 := snd (run between s1) in
  let s3 := snd (step (Settled c (Normal code) now1 now2) s2) in
  c ∈ aborted s1 /\
  generatedCode (app s3) = generatedCode (app s2) /\
  currentModel (app s3) = currentModel (app s2) /\
  history (app s3) = history (app s2) /\
  status (app s3) = status (app s2) /\
  preview s3 = preview s2 /\ world s3 = world s2 /\
  forall later, awaiting (snd (run later s3)) !! c = None.
Proof.
  intros s0 Hc Hstop s1 s2 s3.
  assert (I0 : in_order s0) by apply in_order_run, in_order_initial.
  assert (A1 : c ∈ aborted s1) by now apply stop_aborts.
  assert (A2 : c ∈ aborted s2) by now apply run_aborted_mono.
  destruct (settled_after_abort_frame c (Normal code) now1 now2 s2 A2)
    as (E1 & E2 & E3 & E4 & E5 & E6 & E7).
  repeat split; auto.
  intros later. apply settled_stays_settled; [|exact E7].
  apply controllers_mono_step, controllers_mono, controllers_mono_step.
  destruct I0 as (_ & I2 & _). now apply I2.
Qed.

End Cancellation.

(** ** When a scene becomes current *)

Section Currency.
Context `{Runtime}.




End Currency.

(** ** Closed examples *)


Lemma sample_runtime_disposes_nothing : @programs_dispose_nothing sample_runtime.
Proof.
  intros code w. unfold executeGeneratedCode, try_catch, bind, evaluate. simpl.
  unfold sample_new_Function. repeat case_bool_decide; reflexivity.
Qed.


Lemma normalize_keeps_a_group_witness :
  @executeGeneratedCode sample_runtime (js "(THREE) => cube") sample_world =
  (Normal (Some cube_scene), set_object3DId 2 sample_world).
Proof.
  apply (proj2 (@normalize_keeps_a_group sample_runtime cube_scene
                  (set_object3DId 2 sample_world) eq_refl)).
  eexists _, _, _. repeat split; reflexivity.
Defined.

Lemma normalize_wraps_other_nodes_witness :
  @executeGeneratedCode sample_runtime (js "(THREE) => new THREE.Mesh()") sample_world =
    (Normal (Some wrapped_mesh), set_object3DId 2 sample_world) /\
  id wrapped_mesh ∉ map id (nodes lone_mesh).
Proof.
  assert (Hc : class lone_mesh <> Group) by discriminate.
  pose proof (@normalize_wraps_other_nodes sample_runtime lone_mesh
                (set_object3DId 1 sample_world) Hc) as (_ & Hrun & Hfresh).
  split.
  - apply Hrun. eexists _, _, _. repeat split; reflexivity.
  - apply Hfresh. repeat constructor.
Defined.

Lemma exportToBinaryGLB_outcomes_witness :
  @exportToBinaryGLB sample_runtime cube_scene (js "a_red_cube") empty_world =
    (Normal tt,
     set_downloads
       [{| href := {| part := Buffer [103; 108; 84; 70]; type := "application/octet-stream" |};
           download := js "a_red_cube.glb" |}] empty_world) /\
  @exportToBinaryGLB sample_runtime lone_mesh (js "mesh") empty_world =
    (Normal tt,
     set_downloads
       [{| href := {| part := Text (js "{}"); type := "text/plain" |};
           download := js "mesh.gltf" |}]
       (set_console
          [console_warn "Exporter did not return ArrayBuffer, falling back to JSON"]
          empty_world)) /\
  @exportToBinaryGLB sample_runtime lone_light (js "light") empty_world =
    (Normal tt,
     set_console
       [console_error "An error happened during export:"
          (Some (Error "Error" "THREE.GLTFExporter: nothing to export"))] empty_world).
Proof.
  split; [|split].
  - apply (proj1 (@exportToBinaryGLB_outcomes sample_runtime cube_scene (js "a_red_cube")
                    empty_world)).
    reflexivity.
  - apply (proj1 (proj2 (@exportToBinaryGLB_outcomes sample_runtime lone_mesh (js "mesh")
                           empty_world)) (JObject [])).
    reflexivity.
  - apply (proj1 (proj2 (proj2 (@exportToBinaryGLB_outcomes sample_runtime lone_light
                                  (js "light") empty_world)))).
    reflexivity.
Defined.

Lemma handleGenerate_blank_prompt_witness :
  @step sample_runtime GenerateClicked blank_page = (Normal tt, blank_page).
Proof.
  apply (proj2 (@handleGenerate_blank_prompt sample_runtime blank_page eq_refl)).
Defined.

Lemma wireframe_toggle_witness :
  let shown := snd (ModelObject_effect wrapped_mesh true sample_world) in
  wireframe (materials sample_world !!! 2%nat) = false /\
  wireframe (materials shown !!! 2%nat) = true /\
  wireframe (materials shown !!! 3%nat) = true /\
  needsUpdate (materials shown !!! 3%nat) = true /\
  materials shown !! 7%nat = materials sample_world !! 7%nat /\
  wireframe (materials (snd (ModelObject_effect cube_scene false
                               (snd (ModelObject_effect cube_scene true sample_world))))
               !!! 2%nat) = false.
Proof.
  pose proof (wireframe_toggle wrapped_mesh) as (_ & Hset & Hframe & _).
  pose proof (wireframe_toggle cube_scene) as (_ & _ & _ & _ & _ & _ & _ & Hback).
  assert (Hchild : lone_mesh ∈ nodes wrapped_mesh) by (right; left).
  assert (H2 : 2%nat ∈ slot_materials (Multi [2; 3]%nat)) by left.
  assert (H3 : 3%nat ∈ slot_materials (Multi [2; 3]%nat)) by (right; left).
  assert (H7 : 7%nat ∉ leaf_materials wrapped_mesh).
  { intros Hin. simpl in Hin. repeat (apply elem_of_cons in Hin as [Hin|Hin]; [discriminate|]).
    inversion Hin. }
  assert (Hfalse : forall mat, mat ∈ leaf_materials cube_scene ->
                     wireframe (materials sample_world !!! mat) = false).
  { intros mat Hin. simpl in Hin. apply elem_of_cons in Hin as [->|Hin]; [reflexivity|].
    inversion Hin. }
  cbv zeta. split; [reflexivity|]. split; [|split; [|split; [|split]]].
  - exact (proj1 (Hset true sample_world lone_mesh 1%nat _ 2%nat Hchild eq_refl H2)).
  - exact (proj1 (Hset true sample_world lone_mesh 1%nat _ 3%nat Hchild eq_refl H3)).
  - exact (proj1 (proj2 (Hset true sample_world lone_mesh 1%nat _ 3%nat Hchild eq_refl H3))).
  - exact (Hframe true sample_world 7%nat H7).
  - exact (Hback sample_world Hfalse 2%nat).
Defined.

Lemma superseded_scenes_released_once_witness :
  exists mounted loaded w' superseded,
    @preview_run sample_runtime _ record
      [Rendered (js "cube") 1; Rerendered; Rendered (js "cube") 2; WireframeClicked;
       Rendered [] 3; Unmounted]
      None ([], sample_world) = (Normal mounted, (loaded, w')) /\
    loaded = superseded ++ held mounted /\
    disposed w' = disposed sample_world ++ flat_map releases superseded /\
    List.length (List.filter is_DisposeGeometry (flat_map releases superseded)) =
    List.length (flat_map leaves superseded).
Proof.
  exact (@superseded_scenes_released_once sample_runtime _ sample_world
           sample_runtime_disposes_nothing).
Defined.

Lemma aborted_generation_is_discarded_witness :
  let s0 := snd (@run sample_runtime waiting_page_events (initial sample_world)) in
  let s1 := snd (@step sample_runtime StopClicked s0) in
  let s2 := snd (@run sample_runtime [Render true] s1) in
  let s3 := snd (@step sample_runtime (Settled 0 (Normal (js "(THREE) => cube")) 5 6) s2) in
  0%nat ∈ aborted s1 /\
  generatedCode (app s3) = generatedCode (app s2) /\
  currentModel (app s3) = currentModel (app s2) /\
  history (app s3) = history (app s2).
Proof.
  assert (Hw : is_Some (awaiting (snd (@run sample_runtime waiting_page_events
                                         (initial sample_world))) !! 0%nat))
    by (eexists; reflexivity).
  pose proof (@aborted_generation_is_discarded sample_runtime waiting_page_events
                sample_world 0%nat StopClicked [Render true] (js "(THREE) => cube") 5 6
                Hw (or_introl eq_refl)) as (Ha & Hc & Hm & Hh & _).
  exact (conj Ha (conj Hc (conj Hm Hh))).
Defined.


(** A slip beside C1: a code that fails to evaluate, loaded from the history
    while a scene is shown, leaves that scene current and releases it. *)
Example failed_evaluation_releases_shown_scene :
  let s := snd (@step sample_runtime (Render true) broken_page) in
  currentModel (app s) = Some cube_scene /\
  disposed (world s) = [DisposeGeometry 1; DisposeMaterial 2].
Proof. vm_compute. split; reflexivity. Qed.

(** Each render of App hands the preview a new [onModelReady], a dependency
    of the effect of [GeneratedObject]: the effect runs again, releases the
    scene and evaluates the code anew. *)
Example render_of_App_regenerates_scene :
  let s := snd (@step sample_runtime (Render true) cube_page) in
  currentModel (app s) = Some (Node 2 Group [Node 3 (Mesh 1 (Single 2)) []]) /\
  disposed (world s) = [DisposeGeometry 1; DisposeMaterial 2].
Proof. vm_compute. split; reflexivity. Qed.

(** What [ModelObject] does when it mounts: the flag a generated program gave
    a material is replaced by the flag of the viewer. *)
Example mount_overwrites_wireframe :
  wireframe (materials sample_world !!! 3%nat) = true /\
  wireframe (materials (snd (ModelObject_effect wrapped_mesh false sample_world)) !!! 3%nat)
  = false.
Proof. vm_compute. split; reflexivity. Qed.

(** * Further properties *)

(** ** More on the evaluator and the exporters *)

Section MoreEvaluator.
Context `{Runtime}.

Lemma executeGeneratedCode_some (code : JsString) (w w' : World) (scene : Object3D) :
  executeGeneratedCode code w = (Normal (Some scene), w') ->
  exists o w1,
    Returns code w (VObject3D o) w1 /\ normalize (VObject3D o) w1 = (Normal scene, w').
Proof.
  intros E.
  assert (Hnot : ~ EvaluationFails code w).
  { intros Hf. destruct (executeGeneratedCode_fails code w Hf) as (w2 & E2). congruence. }
  destruct (new_Function (js "return " ++ code)) as [f|e] eqn:Hf;
    [|exfalso; eauto using compilation_fails].
  destruct (f w) as [[v|e] w1] eqn:Hv; [|exfalso; eauto using expression_throws].
  destruct (string_dec (typeof v) "function") as [Ht|Ht];
    [|exfalso; eauto using not_invocable].
  destruct (invoke v THREE w1) as [[raw|e] w2] eqn:Hi;
    [|exfalso; eauto using invocation_throws].
  assert (Hr : Returns code w raw w2) by (exists f, v, w1; auto).
  destruct raw as [| | | | | | |o];
    try (exfalso; apply Hnot; now apply (not_renderable _ _ _ w2 Hr)).
  exists o, w2. split; [exact Hr|].
  rewrite (executeGeneratedCode_returns _ _ _ _ Hr) in E.
  destruct (normalize (VObject3D o) w2) as [[g|e] w3]; congruence.
Qed.

Lemma normalize_Object3D (o : Object3D) (w : World) :
  exists scene w',
    normalize (VObject3D o) w = (Normal scene, w') /\
    class scene = Group /\
    (scene = o \/ (class o <> Group /\ scene = Node (object3DId w) Group [o])).
Proof.
  rewrite normalize_cases. destruct (class o) eqn:Ec.
  - exists o, w. auto.
  - eexists _, _. split; [reflexivity|]. split; [reflexivity|]. right. split; congruence.
  - eexists _, _. split; [reflexivity|]. split; [reflexivity|]. right. split; congruence.
Qed.

(** X1. What [executeGeneratedCode] returns, when it returns a scene, is a
    THREE.Group; normalizing it once more gives it back and creates nothing,
    so a scene is never wrapped twice. *)
Theorem executeGeneratedCode_returns_a_group (code : JsString) (w w' : World)
    (scene : Object3D) :
  executeGeneratedCode code w = (Normal (Some scene), w') ->
  class scene = Group /\
  forall w2, normalize (VObject3D scene) w2 = (Normal scene, w2).
Proof.
  intros E. destruct (executeGeneratedCode_some _ _ _ _ E) as (o & w1 & _ & En).
  destruct (normalize_Object3D o w1) as (g & w2 & En' & Hc & _).
  rewrite En in En'. inversion En'; subst g w2.
  split; [exact Hc|]. intros w2. rewrite normalize_cases, Hc. reflexivity.
Qed.

Lemma wrapper_releases (i : nat) (o : Object3D) :
  releases (Node i Group [o]) = releases o /\
  leaf_materials (Node i Group [o]) = leaf_materials o /\
  leaves (Node i Group [o]) = leaves o.
Proof.
  unfold releases, leaf_materials, leaves. simpl. rewrite !app_nil_r. auto.
Qed.

(** X2. Normalization neither adds nor drops a drawable leaf: when the
    generated function returns an Object3D, the scene [executeGeneratedCode]
    returns has the meshes of that object, in the same order, so that its
    release disposes exactly their geometries and materials and the
    wireframe effect marks exactly their materials. *)
Theorem normalization_keeps_the_leaves (code : JsString) (w w1 : World) (o : Object3D) :
  Returns code w (VObject3D o) w1 ->
  exists scene w',
    executeGeneratedCode code w = (Normal (Some scene), w') /\
    leaves scene = leaves o /\
    (forall w2, GeneratedObject_cleanup scene w2 =
                (Normal tt, set_disposed (disposed w2 ++ releases o) w2)) /\
    (forall v w2, ModelObject_effect scene v w2 =
                  (Normal tt, set_materials (paint v (leaf_materials o) (materials w2)) w2)).
Proof.
  intros Hr. destruct (normalize_Object3D o w1) as (scene & w' & En & _ & Hs).
  exists scene, w'. rewrite (executeGeneratedCode_returns _ _ _ _ Hr), En.
  assert (Hsame : releases scene = releases o /\ leaf_materials scene = leaf_materials o /\
                  leaves scene = leaves o).
  { destruct Hs as [->|[_ ->]]; [auto | apply wrapper_releases]. }
  destruct Hsame as (Er & Em & El).
  repeat split; auto.
  - intros w2. rewrite GeneratedObject_cleanup_run, Er. reflexivity.
  - intros v w2. rewrite ModelObject_effect_run, Em. reflexivity.
Qed.


(** X4. [exportToGLB] never saves a binary file: whatever the exporter hands
    over, it saves the stringified result as text under
    [filename + ".gltf"]; an error of the exporter is logged and nothing is
    saved; it never throws.  When the exporter hands the same JSON document
    to both functions, [exportToBinaryGLB] saves the very file [exportToGLB]
    saves. *)
Theorem exportToGLB_outcomes (object : Object3D) (filename : JsString) (w : World) :
  (forall gltf,
     GLTFExporter_parse object w false = onDone gltf ->
     exportToGLB object filename w =
     (Normal tt,
      set_downloads (downloads w ++
        [{| href := {| part := Text (stringify_result gltf); type := "text/plain" |};
            download := filename ++ js ".gltf" |}]) w)) /\
  (forall error,
     GLTFExporter_parse object w false = onError error ->
     exportToGLB object filename w =
     (Normal tt,
      set_console (console w ++
        [console_error "An error happened during export:" (Some error)]) w)) /\
  (exists w', exportToGLB object filename w = (Normal tt, w')) /\
  (forall document,
     GLTFExporter_parse object w false = onDone (JsonDocument document) ->
     GLTFExporter_parse object w true = onDone (JsonDocument document) ->
     downloads (snd (exportToBinaryGLB object filename w)) =
     downloads (snd (exportToGLB object filename w))).
Proof.
  unfold exportToGLB, exportToBinaryGLB, bind, gets. repeat split.
  - intros gltf E. now rewrite E.
  - intros error E. now rewrite E.
  - destruct (GLTFExporter_parse object w false) as [gltf|error]; simpl; eauto.
  - intros document E1 E2. now rewrite E1, E2.
Qed.

End MoreEvaluator.

(** ** More on the requests of the page *)

Section MoreHandlers.
Context `{Runtime}.

Lemma settled_live_success (c : nat) (p code : JsString) (now1 now2 : N) (s : System) :
  awaiting s !! c = Some p -> c ∉ aborted s ->
  let s' := snd (step (Settled c (Normal code) now1 now2) s) in
  let done :=
    setHistory ({| item_id := number_toString now1; item_prompt := p;
                   item_code := code; createdAt := now2 |} :: history (app s))
      (setStatus SUCCESS (setGeneratedCode code (app s))) in
  app s' = (if bool_decide (abortControllerRef (app s) = Some c)
            then set_abortControllerRef None done else done) /\
  world s' = world s /\ preview s' = preview s.
Proof.
  intros Ea Hc. cbv zeta. rewrite (settled_run c p) by exact Ea.
  unfold handleGenerate_settled, bind, signal_aborted, gets, in_app, modify. simpl.
  rewrite (bool_decide_eq_false_2 _ Hc). simpl.
  destruct (bool_decide _); simpl; auto.
Qed.

Lemma settled_live_failure (c : nat) (p : JsString) (error : Thrown) (now1 now2 : N)
    (s : System) :
  awaiting s !! c = Some p -> c ∉ aborted s ->
  let s' := snd (step (Settled c (Throw error) now1 now2) s) in
  app s' = (if bool_decide (abortControllerRef (app s) = Some c)
            then set_abortControllerRef None (setStatus ERROR (app s))
            else setStatus ERROR (app s)) /\
  world s' = set_console (console (world s) ++ [console_error "" (Some error)]) (world s) /\
  preview s' = preview s.
Proof.
  intros Ea Hc. cbv zeta. rewrite (settled_run c p) by exact Ea.
  unfold handleGenerate_settled, bind, signal_aborted, gets, in_app, modify, the_world, zoom,
    log.
  simpl. rewrite (bool_decide_eq_false_2 _ Hc). simpl.
  destruct (bool_decide _); simpl; auto.
Qed.

(** What a passive event does to App: it may set the current model, and a
    click in the history sets prompt, code, status and mode. *)
Lemma passive_step_app (e : Event) (s : System) :
  passive e = true ->
  history (app (snd (step e s))) = history (app s) /\
  (status (app (snd (step e s))) = status (app s) \/
   status (app (snd (step e s))) = SUCCESS).
Proof.
  intros Hp. destruct e as [text| | | |item|m| |c r n1 n2|[|]]; try discriminate; simpl; auto.
  - destruct (handleDownload_run s) as (w' & ->). auto.
  - destruct (render_App_run s) as (s' & Es & _ & [Ea|(scene & _ & _ & _ & Ea)]);
      rewrite Es; simpl; rewrite Ea; auto.
  - destruct (render_ScenePreview_run s) as (s' & Es & _ & Ea & _).
    rewrite Es. simpl. rewrite Ea. auto.
Qed.

Lemma passive_step_requests (e : Event) (s : System) :
  passive e = true -> same_requests s (snd (step e s)).
Proof.
  intros Hp. pose proof (step_same_requests e s) as Hs.
  destruct e; try discriminate; apply Hs.
Qed.

Lemma passive_run (es : list Event) (s : System) :
  forallb passive es = true ->
  same_requests s (snd (run es s)) /\ history (app (snd (run es s))) = history (app s).
Proof.
  revert s. induction es as [|e es IH]; intros s Hp; [now repeat split|].
  simpl in Hp. apply andb_true_iff in Hp as [He Hes]. rewrite run_cons.
  destruct (IH (snd (step e s)) Hes) as ((E1 & E2 & E3 & E4) & E5).
  destruct (passive_step_requests e s He) as (F1 & F2 & F3 & F4).
  destruct (passive_step_app e s He) as (F5 & _).
  repeat split; congruence.
Qed.

Lemma well_kept_initial (w : World) : well_kept (initial w).
Proof.
  split; [apply in_order_initial|]. repeat split; simpl; try discriminate.
  all: intros c Hc; set_solver.
Qed.

Lemma settled_clears_its_reference (c : nat) (p : JsString) (r : Completion JsString)
    (n1 n2 : N) (s : System) :
  awaiting s !! c = Some p -> abortControllerRef (app s) = Some c ->
  abortControllerRef (app (snd (step (Settled c r n1 n2) s))) = None.
Proof.
  intros Ea Er. rewrite (settled_run c p) by exact Ea.
  unfold handleGenerate_settled, bind, signal_aborted, gets, in_app, modify,
    the_world, zoom, log. simpl.
  destruct r; simpl; destruct (bool_decide (c ∈ aborted s)); simpl;
    rewrite Er; rewrite bool_decide_eq_true_2 by reflexivity; reflexivity.
Qed.

Lemma well_kept_step (e : Event) (s : System) : well_kept s -> well_kept (snd (step e s)).
Proof.
  intros Hwk. pose proof Hwk as (I & B & L & G).
  pose proof (in_order_step e s I) as I'.
  destruct (passive e) eqn:Hp.
  { destruct (passive_step_requests e s Hp) as (Ea & Ec & Ew & Er).
    destruct (passive_step_app e s Hp) as (_ & Es).
    split; [exact I'|]. unfold live. rewrite Ea, Ec, Ew, Er.
    split; [exact B|]. split; [exact L|].
    intros Hg. destruct Es as [Es|Es]; [apply G; congruence | congruence]. }
  destruct e as [text| | | |item|m| |c r n1 n2|b]; try discriminate.
  - (* GenerateClicked *)
    revert I'. simpl. destruct (truthy (trim (prompt (app s)))) eqn:Ht.
    2:{ unfold handleGenerate, bind, gets. rewrite Ht. intros _. exact Hwk. }
    rewrite handleGenerate_run by exact Ht. intros I'.
    split; [exact I'|]. unfold live. simpl.
    assert (Hfresh : controllers s ∉ aborted s) by (intros Hin; specialize (B _ Hin); lia).
    assert (Hold : forall c0, abortControllerRef (app s) = Some c0 -> (c0 < controllers s)%nat)
      by (destruct I as (_ & _ & I3); exact I3).
    split; [|split].
    + intros c Hc. destruct (abortControllerRef (app s)) as [c0|] eqn:Er.
      * apply elem_of_union in Hc as [Hc|Hc].
        -- apply elem_of_singleton in Hc as ->. specialize (Hold c0 eq_refl). lia.
        -- specialize (B c Hc). lia.
      * specialize (B c Hc). lia.
    + intros c Hc. inversion Hc; subst c. split.
      * rewrite lookup_insert_eq. eauto.
      * destruct (abortControllerRef (app s)) as [c0|] eqn:Er; [|exact Hfresh].
        intros Hin. apply elem_of_union in Hin as [Hin|Hin]; [|now apply Hfresh].
        apply elem_of_singleton in Hin. specialize (Hold c0 eq_refl). lia.
    + eauto.
  - (* StopClicked *)
    revert I'. simpl. rewrite handleStop_run.
    destruct (abortControllerRef (app s)) as [c0|] eqn:Er; [|intros _; exact Hwk].
    intros I'. split; [exact I'|]. unfold live. simpl.
    split; [|split]; try discriminate.
    intros c Hc. apply elem_of_union in Hc as [Hc|Hc]; [|now apply B].
    apply elem_of_singleton in Hc as ->. destruct I as (_ & _ & I3). now apply I3.
  - (* Settled *)
    destruct (awaiting s !! c) as [p|] eqn:Ea.
    2:{ rewrite settled_unknown by exact Ea. exact Hwk. }
    split; [exact I'|].
    destruct (settled_requests c p r n1 n2 s Ea) as (_ & Eab & Ec & Ew & Er).
    unfold live. rewrite Eab, Ec, Ew. split; [exact B|]. split.
    + intros c0 Hc0.
      destruct Er as [Er|[_ Er]]; [|congruence]. rewrite Er in Hc0.
      destruct (decide (c0 = c)) as [->|Hne].
      * pose proof (settled_clears_its_reference c p r n1 n2 s Ea Hc0). congruence.
      * rewrite lookup_delete_ne by congruence. now apply L.
    + intros Hg. destruct (decide (c ∈ aborted s)) as [Hin|Hout].
      * assert (Hne : abortControllerRef (app s) <> Some c).
        { intros Hr. now apply (L c Hr). }
        destruct Er as [Er|[Er _]]; [|congruence]. rewrite Er. apply G.
        rewrite (settled_run c p) in Hg by exact Ea.
        rewrite handleGenerate_settled_aborted in Hg by exact Hin.
        simpl in Hg. rewrite bool_decide_eq_false_2 in Hg by exact Hne. exact Hg.
      * exfalso. destruct r as [code|error].
        -- destruct (settled_live_success c p code n1 n2 s Ea Hout) as (Eapp & _).
           rewrite Eapp in Hg. destruct (bool_decide _); discriminate.
        -- destruct (settled_live_failure c p error n1 n2 s Ea Hout) as (Eapp & _).
           rewrite Eapp in Hg. destruct (bool_decide _); discriminate.
Qed.

Lemma well_kept_run (es : list Event) (s : System) : well_kept s -> well_kept (snd (run es s)).
Proof.
  revert s. induction es as [|e es IH]; intros s Hs; [exact Hs|].
  rewrite run_cons. apply IH. now apply well_kept_step.
Qed.

End MoreHandlers.

Section Requests.
Context `{Runtime}.

Lemma step_history_grows (e : Event) (s : System) :
  history (app (snd (step e s))) = history (app s) \/
  exists c p code now1 now2,
    e = Settled c (Normal code) now1 now2 /\ awaiting s !! c = Some p /\ (c ∉ aborted s) /\
    history (app (snd (step e s))) =
      {| item_id := number_toString now1; item_prompt := p; item_code := code;
         createdAt := now2 |} :: history (app s).
Proof.
  destruct (passive e) eqn:Hp; [left; now apply passive_step_app|].
  destruct e as [text| | | |item|m| |c r n1 n2|b]; try discriminate.
  - left. simpl. destruct (truthy (trim (prompt (app s)))) eqn:Ht.
    + now rewrite handleGenerate_run.
    + unfold handleGenerate, bind, gets. now rewrite Ht.
  - left. simpl. rewrite handleStop_run. now destruct (abortControllerRef (app s)).
  - destruct (awaiting s !! c) as [p|] eqn:Ea; [|left; now rewrite settled_unknown].
    destruct (decide (c ∈ aborted s)) as [Hin|Hout].
    + left. now destruct (settled_after_abort_frame c r n1 n2 s Hin) as (_ & _ & -> & _).
    + destruct r as [code|error].
      * right. exists c, p, code, n1, n2. repeat split; auto.
        destruct (settled_live_success c p code n1 n2 s Ea Hout) as (-> & _).
        now destruct (bool_decide _).
      * left. destruct (settled_live_failure c p error n1 n2 s Ea Hout) as (-> & _).
        now destruct (bool_decide _).
Qed.

Lemma run_history_grows (es : list Event) (s : System) :
  exists newer, history (app (snd (run es s))) = newer ++ history (app s).
Proof.
  revert s. induction es as [|e es IH]; intros s; [now exists []|].
  rewrite run_cons. destruct (IH (snd (step e s))) as (newer & ->).
  destruct (step_history_grows e s) as [->|(c & p & code & n1 & n2 & _ & _ & _ & ->)].
  - now exists newer.
  - eexists (newer ++ [_]). now rewrite <- app_assoc.
Qed.

(** X5. The history only grows, at its head: a step of the page leaves it
    as it was, unless the step is the answer, with a code, to a call that
    waits and was not aborted; then one entry is put in front of it, with
    that code and the prompt the call was started with.  So after any events
    the history of before is still there, at the end, unchanged. *)
Theorem history_only_grows (e : Event) (s : System) :
  (history (app (snd (step e s))) = history (app s) \/
   exists c p code now1 now2,
     e = Settled c (Normal code) now1 now2 /\ awaiting s !! c = Some p /\ (c ∉ aborted s) /\
     history (app (snd (step e s))) =
       {| item_id := number_toString now1; item_prompt := p; item_code := code;
          createdAt := now2 |} :: history (app s)) /\
  (forall es, exists newer, history (app (snd (run es s))) = newer ++ history (app s)).
Proof.
  split; [apply step_history_grows | intros es; apply run_history_grows].
Qed.

(** X6. Whatever events the page has run, while its status is GENERATING
    there is a call that waits and was not aborted, and it is the one whose
    controller [abortControllerRef] holds: the Stop button, shown in that
    status, has a request to stop. *)
Theorem generating_has_a_live_request (before : list Event) (w0 : World) :
  let s := snd (run before (initial w0)) in
  status (app s) = GENERATING ->
  exists c, abortControllerRef (app s) = Some c /\ live s c.
Proof.
  intros s Hg.
  destruct (well_kept_run before (initial w0) (well_kept_initial w0)) as (_ & _ & L & G).
  destruct (G Hg) as (c & Hc). exists c. split; [exact Hc | now apply L].
Qed.

(** X7. Whatever events the page has run, at most one call of
    [handleGenerate] waits without being aborted. *)
Theorem at_most_one_live_request (before : list Event) (w0 : World) (c1 c2 : nat) :
  let s := snd (run before (initial w0)) in
  live s c1 -> live s c2 -> c1 = c2.
Proof.
  intros s (A1 & N1) (A2 & N2).
  destruct (in_order_run before (initial w0) (in_order_initial w0)) as (I1 & _).
  destruct (I1 c1 A1) as [?|E1]; [contradiction|].
  destruct (I1 c2 A2) as [?|E2]; [contradiction|].
  fold s in E1, E2. congruence.
Qed.

(** X8. Whatever events the page has run, after a click on Stop no call
    waits without being aborted and [abortControllerRef] is empty; the status
    becomes IDLE when there was a controller to abort, and when there was
    none the click changes nothing; a second click changes nothing. *)
Theorem stop_leaves_no_live_request (before : list Event) (w0 : World) :
  let s := snd (run before (initial w0)) in
  let s' := snd (step StopClicked s) in
  (forall c, ~ live s' c) /\
  abortControllerRef (app s') = None /\
  (is_Some (abortControllerRef (app s)) -> status (app s') = IDLE) /\
  (abortControllerRef (app s) = None -> s' = s) /\
  snd (step StopClicked s') = s'.
Proof.
  intros s s'.
  destruct (in_order_run before (initial w0) (in_order_initial w0)) as (I1 & _).
  fold s in I1. subst s'. simpl. rewrite !handleStop_run. simpl.
  destruct (abortControllerRef (app s)) as [c0|] eqn:Er; simpl.
  - repeat split; auto.
    intros c (Hw & Hn). simpl in *.
    destruct (I1 c Hw) as [Ha|Hr]; [set_solver|].
    rewrite ?Er in Hr. inversion Hr. set_solver.
    discriminate.
  - rewrite ?Er. repeat split; auto.
    + intros c (Hw & Hn). destruct (I1 c Hw) as [Ha|Hr]; [contradiction|congruence].
    + intros (x & Hx). discriminate.
Qed.

(** The page from a click on Generate, with a prompt that is not blank, to
    the answer of the service, through passive events only. *)
Lemma generation_in_flight (before between : list Event) (w0 : World) :
  let s := snd (run before (initial w0)) in
  let s2 := snd (run between (snd (step GenerateClicked s))) in
  trim (prompt (app s)) <> [] -> forallb passive between = true ->
  awaiting s2 !! controllers s = Some (prompt (app s)) /\
  (controllers s ∉ aborted s2) /\
  abortControllerRef (app s2) = Some (controllers s) /\
  history (app s2) = history (app s) /\
  well_kept s2.
Proof.
  intros s s2 Hp Hb.
  pose proof (well_kept_run before (initial w0) (well_kept_initial w0)) as Hwk.
  fold s in Hwk.
  pose proof (well_kept_run between _ (well_kept_step GenerateClicked s Hwk)) as Hwk2.
  fold s2 in Hwk2.
  destruct (passive_run between (snd (step GenerateClicked s)) Hb)
    as ((Ea & Ec & Ew & Er) & Eh).
  fold s2 in Ea, Ec, Ew, Er, Eh.
  assert (E1 : step GenerateClicked s = handleGenerate s) by reflexivity.
  rewrite E1, handleGenerate_run in Ea, Ew, Er, Eh by now apply truthy_trim.
  simpl in Ea, Ew, Er, Eh.
  assert (Hlive : live s2 (controllers s)).
  { destruct Hwk2 as (_ & _ & L & _). now apply L. }
  destruct Hlive as (_ & Hn).
  split; [rewrite Ew; apply lookup_insert_eq|].
  split; [exact Hn|]. split; [exact Er|]. split; [exact Eh | exact Hwk2].
Qed.

(** X9. A generation that is not cancelled is published.  On a page that
    has run any events, click Generate with a prompt that is not blank, let
    only passive events happen (typing, renders, clicks on the history, the
    mode or Download), then let the service answer with a code: the code
    becomes the generated code, the status is SUCCESS, the history gets one
    more entry in front, with the code and the prompt of the click, even if
    the prompt was edited meanwhile, [abortControllerRef] is empty and no
    call waits without being aborted.  A later click on that entry brings
    back that prompt and that code. *)
Theorem live_generation_publishes (before between : list Event) (w0 : World)
    (code : JsString) (now1 now2 : N) :
  let s := snd (run before (initial w0)) in
  let c := controllers s in
  let s2 := snd (run between (snd (step GenerateClicked s))) in
  let s3 := snd (step (Settled c (Normal code) now1 now2) s2) in
  let item := {| item_id := number_toString now1; item_prompt := prompt (app s);
                 item_code := code; createdAt := now2 |} in
  trim (prompt (app s)) <> [] -> forallb passive between = true ->
  generatedCode (app s3) = code /\ status (app s3) = SUCCESS /\
  history (app s3) = item :: history (app s) /\
  abortControllerRef (app s3) = None /\
  currentModel (app s3) = currentModel (app s2) /\
  (forall c', ~ live s3 c') /\
  (forall s4,
     let s5 := snd (step (HistoryClicked item) s4) in
     prompt (app s5) = prompt (app s) /\ generatedCode (app s5) = code /\
     status (app s5) = SUCCESS /\ mode (app s5) = generator).
Proof.
  intros s c s2 s3 item Hp Hb.
  destruct (generation_in_flight before between w0 Hp Hb) as (Ea & Hn & Er & Eh & Hwk).
  fold s s2 in Ea, Hn, Er, Eh, Hwk. fold c in Ea, Hn, Er.
  destruct (settled_live_success c _ code now1 now2 s2 Ea Hn) as (Eapp & _ & _).
  fold s3 in Eapp. rewrite Er, bool_decide_eq_true_2 in Eapp by reflexivity.
  rewrite Eapp. simpl. rewrite Eh.
  repeat split; auto.
  intros c' (Hw & Hn').
  destruct (settled_requests c _ (Normal code) now1 now2 s2 Ea) as (_ & Eab & _ & Ew & _).
  fold s3 in Eab, Ew. rewrite Ew in Hw. rewrite Eab in Hn'.
  destruct (decide (c' = c)) as [->|Hne];
    [rewrite lookup_delete_eq in Hw; now destruct Hw|].
  rewrite lookup_delete_ne in Hw by congruence.
  destruct Hwk as ((I1 & _) & _). destruct (I1 c' Hw) as [?|?]; [contradiction|congruence].
Qed.

(** X10. A generation that is not cancelled and fails is reported.  In the
    same setting, when the service rejects the call, the status is ERROR,
    the error is written to the console, [abortControllerRef] is empty, and
    generated code, current model and history are those of before the
    answer; when the answer follows the click at once, the code and the model
    are still cleared. *)
Theorem live_generation_fails (before between : list Event) (w0 : World)
    (error : Thrown) (now1 now2 : N) :
  let s := snd (run before (initial w0)) in
  let c := controllers s in
  let s2 := snd (run between (snd (step GenerateClicked s))) in
  let s3 := snd (step (Settled c (Throw error) now1 now2) s2) in
  trim (prompt (app s)) <> [] -> forallb passive between = true ->
  status (app s3) = ERROR /\
  generatedCode (app s3) = generatedCode (app s2) /\
  currentModel (app s3) = currentModel (app s2) /\
  history (app s3) = history (app s) /\
  abortControllerRef (app s3) = None /\
  console (world s3) = console (world s2) ++ [console_error "" (Some error)] /\
  (between = [] -> generatedCode (app s3) = [] /\ currentModel (app s3) = None).
Proof.
  intros s c s2 s3 Hp Hb.
  destruct (generation_in_flight before between w0 Hp Hb) as (Ea & Hn & Er & Eh & Hwk).
  fold s s2 in Ea, Hn, Er, Eh, Hwk. fold c in Ea, Hn, Er.
  destruct (settled_live_failure c _ error now1 now2 s2 Ea Hn) as (Eapp & Ew & _).
  fold s3 in Eapp, Ew. rewrite Er, bool_decide_eq_true_2 in Eapp by reflexivity.
  rewrite Eapp, Ew. simpl. rewrite Eh.
  assert (Hcleared : between = [] -> generatedCode (app s2) = [] /\ currentModel (app s2) = None).
  { intros ->. subst s2. simpl. now rewrite handleGenerate_run by now apply truthy_trim. }
  repeat split; auto; now apply Hcleared.
Qed.


End Requests.

(** ** The answers of the generation service *)

Lemma startsWith_app (p s : JsString) :
  startsWith p s = true <-> exists after, s = p ++ after.
Proof.
  revert s. induction p as [|a p IH]; intros s; simpl.
  - split; [intros _; now exists s | reflexivity].
  - destruct s as [|b s].
    + split; [discriminate | intros (after & E); discriminate].
    + rewrite andb_true_iff, N.eqb_eq, IH. split.
      * intros (-> & after & ->). now exists after.
      * intros (after & E). inversion E. eauto.
Qed.

Lemma occurs_cons (p : JsString) (c : N) (s : JsString) :
  occurs p (c :: s) -> startsWith p (c :: s) = true \/ occurs p s.
Proof.
  intros ([|b before] & after & E).
  - left. apply startsWith_app. now exists after.
  - right. inversion E. now exists before, after.
Qed.

Lemma occurs_infix (p s t a b : JsString) : s = a ++ t ++ b -> occurs p t -> occurs p s.
Proof.
  intros -> (before & after & ->). exists (a ++ before), (after ++ b).
  now rewrite <- !app_assoc.
Qed.

Lemma occurs_nil (p : JsString) : p <> [] -> ~ occurs p [].
Proof.
  intros Hp (before & after & E). destruct before; [destruct p|]; simpl in E; congruence.
Qed.

Lemma indexOf_from_found (p s : JsString) (i : Z) :
  (0 <= i)%Z -> (indexOf_from p s i <> -1)%Z ->
  (i <= indexOf_from p s i)%Z /\
  startsWith p (drop (Z.to_nat (indexOf_from p s i - i)) s) = true.
Proof.
  revert i. induction s as [|c r IH]; intros i Hi; simpl.
  - destruct (startsWith p []) eqn:E; [|congruence]. intros _.
    rewrite Z.sub_diag. simpl. split; [lia | exact E].
  - destruct (startsWith p (c :: r)) eqn:E.
    + intros _. rewrite Z.sub_diag. simpl. split; [lia | exact E].
    + intros Hn. destruct (IH (i + 1)%Z ltac:(lia) Hn) as (Hle & Hs).
      split; [lia|].
      replace (Z.to_nat (indexOf_from p r (i + 1) - i))
        with (S (Z.to_nat (indexOf_from p r (i + 1) - (i + 1)))) by lia.
      exact Hs.
Qed.

Lemma indexOf_from_none (p s : JsString) (i : Z) :
  (0 <= i)%Z -> (indexOf_from p s i = -1)%Z <-> ~ occurs p s.
Proof.
  revert i. induction s as [|c r IH]; intros i Hi; simpl.
  - destruct (startsWith p []) eqn:E.
    + split; [lia|]. intros Hn. exfalso. apply Hn. apply startsWith_app in E as (after & E).
      now exists [], after.
    + split; [|reflexivity]. intros _ ([|b before] & after & Eo); [|discriminate].
      assert (startsWith p [] = true) by (apply startsWith_app; eauto). congruence.
  - destruct (startsWith p (c :: r)) eqn:E.
    + split; [lia|]. intros Hn. exfalso. apply Hn. apply startsWith_app in E as (after & E).
      now exists [], after.
    + rewrite (IH (i + 1)%Z) by lia. split.
      * intros Hn Ho. apply occurs_cons in Ho as [Ho|Ho]; [congruence | contradiction].
      * intros Hn Ho. apply Hn. eapply (occurs_infix _ _ r [c] []); [|exact Ho].
        now rewrite app_nil_r.
Qed.

Lemma indexOf_none (p s : JsString) : indexOf p s = (-1)%Z <-> ~ occurs p s.
Proof. now apply indexOf_from_none. Qed.

Lemma indexOf_found (p s : JsString) :
  indexOf p s <> (-1)%Z ->
  (0 <= indexOf p s)%Z /\ startsWith p (substring_from (indexOf p s) s) = true.
Proof.
  intros Hn. destruct (indexOf_from_found p s 0 ltac:(lia) Hn) as (Hle & Hs).
  rewrite Z.sub_0_r in Hs. split; [exact Hle | exact Hs].
Qed.

Lemma remove_matches_skip (p : JsString) (k : nat) (s : JsString) :
  remove_matches p k s = remove_matches p 0 (drop k s).
Proof.
  revert k. induction s as [|c r IH]; intros [|k]; try reflexivity.
  change (remove_matches p k r = remove_matches p 0 (drop k r)). apply IH.
Qed.

Lemma remove_all_cons (p : JsString) (c : N) (r : JsString) :
  remove_all p (c :: r) =
  if startsWith p (c :: r) then remove_all p (drop (List.length p - 1) r)
  else c :: remove_all p r.
Proof.
  unfold remove_all. cbn [remove_matches].
  destruct (startsWith p (c :: r)); [apply remove_matches_skip | reflexivity].
Qed.

(** Where [p] does not occur, [replace(/p/g, '')] changes nothing. *)
Lemma remove_all_absent (p s : JsString) : ~ occurs p s -> remove_all p s = s.
Proof.
  induction s as [|c r IH]; intros Hn; [reflexivity|].
  rewrite remove_all_cons. destruct (startsWith p (c :: r)) eqn:E.
  - exfalso. apply Hn. apply startsWith_app in E as (after & E). now exists [], after.
  - f_equal. apply IH. intros Ho. apply Hn.
    eapply (occurs_infix _ _ r [c] []); [|exact Ho]. now rewrite app_nil_r.
Qed.

Lemma fence_units : js "```" = [96; 96; 96].
Proof. reflexivity. Qed.

Lemma startsWith_cons (a : N) (p : JsString) (b : N) (s : JsString) :
  startsWith (a :: p) (b :: s) = (a =? b) && startsWith p s.
Proof. reflexivity. Qed.

Lemma two_backticks_kept (r : JsString) :
  startsWith [96; 96] (remove_all (js "```") r) = true -> startsWith [96; 96] r = true.
Proof.
  destruct r as [|c1 r1]; [discriminate|]. rewrite remove_all_cons.
  destruct (startsWith (js "```") (c1 :: r1)) eqn:E1.
  { intros _. rewrite fence_units in E1. cbn [startsWith] in *.
    destruct r1 as [|c2 r2]; [now rewrite andb_false_r in E1|].
    apply andb_true_iff in E1 as (-> & E1). apply andb_true_iff in E1 as (-> & _).
    reflexivity. }
  cbn [startsWith]. intros Hs. apply andb_true_iff in Hs as (Hc1 & Hs). rewrite Hc1.
  destruct r1 as [|c2 r2]; [discriminate|]. rewrite remove_all_cons in Hs.
  destruct (startsWith (js "```") (c2 :: r2)) eqn:E2.
  - rewrite fence_units in E2. cbn [startsWith] in E2.
    apply andb_true_iff in E2 as (-> & _). reflexivity.
  - cbn [startsWith] in Hs. rewrite andb_true_r in Hs. now rewrite Hs.
Qed.

Lemma remove_fences_bounded (n : nat) (s : JsString) :
  (List.length s <= n)%nat -> ~ occurs (js "```") (remove_all (js "```") s).
Proof.
  revert s. induction n as [|n IH]; intros s Hl.
  - destruct s; [|simpl in Hl; lia]. now apply occurs_nil.
  - destruct s as [|c r]; [now apply occurs_nil|]. simpl in Hl.
    rewrite remove_all_cons. destruct (startsWith (js "```") (c :: r)) eqn:E.
    + apply IH. rewrite length_drop. lia.
    + intros Ho. apply occurs_cons in Ho as [Hs|Ho]; [|apply (IH r); [lia | exact Ho]].
      rewrite fence_units in Hs at 1. rewrite startsWith_cons in Hs.
      apply andb_true_iff in Hs as (Hc & Hs).
      apply (two_backticks_kept r) in Hs.
      rewrite fence_units, startsWith_cons, Hc, Hs in E. discriminate.
Qed.

Lemma trimStart_suffix (s : JsString) : exists a, s = a ++ trimStart s.
Proof.
  induction s as [|c r (a & IH)]; [now exists []|]. simpl.
  destruct (isWhiteSpace c); [|now exists []].
  exists (c :: a). simpl. now rewrite <- IH.
Qed.

Lemma trim_infix (s : JsString) : exists a b, s = a ++ trim s ++ b.
Proof.
  destruct (trimStart_suffix s) as (a & Ea).
  destruct (trimStart_suffix (rev (trimStart s))) as (b & Eb).
  exists a, (rev b). unfold trim, trimEnd. rewrite <- rev_app_distr, <- Eb, rev_involutive.
  exact Ea.
Qed.

Lemma trimStart_head (s : JsString) :
  match trimStart s with [] => True | c :: _ => isWhiteSpace c = false end.
Proof.
  induction s as [|c r IH]; [exact I|]. simpl.
  destruct (isWhiteSpace c) eqn:E; [exact IH | exact E].
Qed.

Lemma trimStart_fixed (s : JsString) :
  match s with [] => True | c :: _ => isWhiteSpace c = false end -> trimStart s = s.
Proof. destruct s as [|c r]; [reflexivity|]. simpl. now intros ->. Qed.

Lemma trimStart_last (s : JsString) (c : N) :
  isWhiteSpace c = false -> trimStart (s ++ [c]) = trimStart s ++ [c].
Proof.
  intros Hc. induction s as [|d r IH]; simpl; [now rewrite Hc|].
  destruct (isWhiteSpace d); [exact IH | reflexivity].
Qed.

(** A string that does not begin with white space. *)
Lemma trimStart_rev_fixed (s : JsString) :
  match rev s with [] => True | c :: _ => isWhiteSpace c = false end -> trimEnd s = s.
Proof.
  intros Hs. unfold trimEnd. rewrite trimStart_fixed by exact Hs. apply rev_involutive.
Qed.

Lemma trimEnd_head (s : JsString) :
  match s with [] => True | c :: _ => isWhiteSpace c = false end ->
  match trimEnd s with [] => True | c :: _ => isWhiteSpace c = false end.
Proof.
  destruct s as [|c r]; [intros _; exact I|]. intros Hc. unfold trimEnd. simpl.
  rewrite trimStart_last by exact Hc. rewrite rev_app_distr. exact Hc.
Qed.

Lemma trim_ends (s : JsString) :
  match trim s with [] => True | c :: _ => isWhiteSpace c = false end /\
  match rev (trim s) with [] => True | c :: _ => isWhiteSpace c = false end.
Proof.
  split.
  - apply trimEnd_head, trimStart_head.
  - unfold trim, trimEnd. rewrite rev_involutive. apply trimStart_head.
Qed.

Lemma trim_fixed (s : JsString) :
  match s with [] => True | c :: _ => isWhiteSpace c = false end ->
  match rev s with [] => True | c :: _ => isWhiteSpace c = false end ->
  trim s = s.
Proof.
  intros H1 H2. unfold trim. rewrite trimStart_fixed by exact H1.
  now apply trimStart_rev_fixed.
Qed.

Lemma trim_trim (s : JsString) : trim (trim s) = trim s.
Proof. destruct (trim_ends s). now apply trim_fixed. Qed.

Lemma function_not_blank (s after : JsString) :
  s = js "(THREE)" ++ after ->
  match s with [] => True | c :: _ => isWhiteSpace c = false end.
Proof. intros ->. reflexivity. Qed.

Lemma suffix_ends (t : JsString) (i : nat) :
  drop i t <> [] ->
  match rev t with [] => True | c :: _ => isWhiteSpace c = false end ->
  match rev (drop i t) with [] => True | c :: _ => isWhiteSpace c = false end.
Proof.
  intros Hn. rewrite <- (take_drop i t) at 1. rewrite rev_app_distr.
  destruct (rev (drop i t)) as [|c r] eqn:E; [|trivial].
  exfalso. apply Hn. rewrite <- (rev_involutive (drop i t)), E. reflexivity.
Qed.

Section Answers.
Context `{GenAI}.

Lemma cleanup_cases (code : JsString) :
  let t := trim (remove_all (js "```")
             (remove_all (js "```js") (remove_all (js "```javascript") code))) in
  (cleanup code = t /\ ~ occurs (js "(THREE)") t) \/
  (exists after, cleanup code = substring_from (indexOf (js "(THREE)") t) t /\
                 cleanup code = js "(THREE)" ++ after).
Proof.
  intros t. unfold cleanup. fold t.
  destruct (Z.eq_dec (indexOf (js "(THREE)") t) (-1)) as [E|E].
  - left. rewrite E. split; [reflexivity | now apply indexOf_none].
  - right. destruct (indexOf_found _ _ E) as (Hle & Hs).
    apply startsWith_app in Hs as (after & Hs). exists after.
    replace (-1 <? indexOf (js "(THREE)") t)%Z with true by (symmetry; apply Z.ltb_lt; lia).
    split; [reflexivity | exact Hs].
Qed.

Lemma cleanup_fenceless (code : JsString) : ~ occurs (js "```") (cleanup code).
Proof.
  set (u := remove_all (js "```js") (remove_all (js "```javascript") code)).
  assert (Hu : ~ occurs (js "```") (remove_all (js "```") u))
    by now apply (remove_fences_bounded (List.length u)).
  destruct (trim_infix (remove_all (js "```") u)) as (a & b & Et).
  assert (Ht : ~ occurs (js "```") (trim (remove_all (js "```") u))).
  { intros Ho. apply Hu. now apply (occurs_infix _ _ _ a b Et). }
  destruct (cleanup_cases code) as [(-> & _)|(after & Ec & _)]; [exact Ht|].
  rewrite Ec. intros Ho. apply Ht. unfold substring_from in Ho.
  eapply (occurs_infix _ _ _ (take _ _) []); [|exact Ho].
  now rewrite app_nil_r, take_drop.
Qed.

Lemma cleanup_trimmed (code : JsString) : trim (cleanup code) = cleanup code.
Proof.
  destruct (cleanup_cases code) as [(-> & _)|(after & Ec & Ef)]; [apply trim_trim|].
  apply trim_fixed.
  - now apply (function_not_blank _ after).
  - rewrite Ec. apply suffix_ends; [|apply trim_ends].
    unfold substring_from in Ec. rewrite <- Ec, Ef. discriminate.
Qed.

Lemma fence_in_longer (tail s : JsString) :
  ~ occurs (js "```") s -> ~ occurs (js "```" ++ tail) s.
Proof.
  intros Hn (before & after & E). apply Hn. exists before, (tail ++ after).
  now rewrite E, <- !app_assoc.
Qed.

Lemma cleanup_of_clean (code : JsString) :
  ~ occurs (js "```") code -> trim code = code ->
  (startsWith (js "(THREE)") code = true \/ ~ occurs (js "(THREE)") code) ->
  cleanup code = code.
Proof.
  intros Hf Ht Hs. unfold cleanup.
  rewrite (remove_all_absent (js "```javascript") code)
    by exact (fence_in_longer (js "javascript") code Hf).
  rewrite (remove_all_absent (js "```js") code) by exact (fence_in_longer (js "js") code Hf).
  rewrite (remove_all_absent (js "```") code) by exact Hf.
  rewrite Ht. destruct Hs as [Hs|Hs].
  - destruct code as [|c r]; [discriminate|].
    unfold indexOf. cbn [indexOf_from]. rewrite Hs. reflexivity.
  - apply indexOf_none in Hs. now rewrite Hs.
Qed.

(** X12. The code [generate3DModelCode] hands over holds no markdown fence:
    whatever the model answered, after the cleanup of lines 71 to 76 the text
    has no three backticks in a row, with or without a language tag. *)
Theorem cleanup_removes_every_fence (code : JsString) :
  ~ occurs (js "```") (cleanup code) /\
  ~ occurs (js "```js") (cleanup code) /\
  ~ occurs (js "```javascript") (cleanup code) /\
  indexOf (js "```") (cleanup code) = (-1)%Z.
Proof.
  pose proof (cleanup_fenceless code) as Hf. repeat split.
  - exact Hf.
  - exact (fence_in_longer (js "js") _ Hf).
  - exact (fence_in_longer (js "javascript") _ Hf).
  - now apply indexOf_none.
Qed.

(** X13. The cleaned code begins at the function: it starts with the text
    "(THREE)" whenever that text occurs in it, what preceded its first
    occurrence being dropped, and it has no white space at either end.
    Cleaning it a second time changes nothing. *)
Theorem cleanup_starts_at_the_function (code : JsString) :
  (startsWith (js "(THREE)") (cleanup code) = true \/
   ~ occurs (js "(THREE)") (cleanup code)) /\
  trim (cleanup code) = cleanup code /\
  cleanup (cleanup code) = cleanup code.
Proof.
  assert (Hs : startsWith (js "(THREE)") (cleanup code) = true \/
               ~ occurs (js "(THREE)") (cleanup code)).
  { destruct (cleanup_cases code) as [(-> & Hn)|(after & _ & Ef)]; [now right|].
    left. apply startsWith_app. now exists after. }
  split; [exact Hs|]. split; [apply cleanup_trimmed|].
  apply cleanup_of_clean; [apply cleanup_fenceless | apply cleanup_trimmed | exact Hs].
Qed.

(** X14. The cleanup does no harm to a clean answer: a text without fences
    and without white space at its ends that starts with "(THREE)" is
    returned as it is. *)
Theorem cleanup_keeps_clean_code (code : JsString) :
  indexOf (js "```") code = (-1)%Z -> trim code = code ->
  startsWith (js "(THREE)") code = true ->
  cleanup code = code.
Proof.
  intros Hf Ht Hs.
  apply cleanup_of_clean; [now apply indexOf_none | exact Ht | now left].
Qed.

End Answers.

Section Generation.
Context `{GenAI}.

Lemma generate3DModelCode_run (prompt : JsString) (r : Remote) :
  let request :=
    {| request_model := "gemini-3-pro-preview";
       request_contents :=
         js "Create a high-quality, detailed Three.js procedural generator for: "
         ++ prompt
         ++ js ". Ensure characters are volumetric and stylized (not stick figures).";
       request_systemInstruction := SYSTEM_INSTRUCTION;
       request_temperature := 0.7%Q;
       request_maxOutputTokens := 8192 |} in
  let failed (e : Thrown) (sent : list GenerationRequest) :=
    (Throw e,
     {| requests := requests r ++ sent;
        remote_console := remote_console r ++ [console_error "Gemini API Error:" (Some e)] |}) in
  generate3DModelCode prompt r =
  match API_KEY with
  | Some (c :: key) =>
      match generateContent (c :: key) (requests r) request with
      | Normal text =>
          (Normal (match text with Some answer => cleanup answer | None => [] end),
           {| requests := requests r ++ [request]; remote_console := remote_console r |})
      | Throw e => failed e [request]
      end
  | _ => failed (Error "Error" "API Key is missing") []
  end.
Proof.
  cbv zeta. unfold generate3DModelCode, try_catch, bind, send, remote_log, modify, throw, ret.
  destruct API_KEY as [[|c key]|]; simpl; rewrite ?app_nil_r; try reflexivity.
  destruct (generateContent _ _ _) as [[[|a answer]|]|e]; try reflexivity.
  now destruct (cleanup (a :: answer)).
Qed.

(** X15. [generate3DModelCode] returns a code only after one request to the
    model, made with the key of the environment: the request holds the
    prompt between the two fixed sentences, the system instruction, the
    temperature 0.7 and the limit of 8192 tokens; the code returned is the
    cleaned text of the answer, or the empty string when the answer has no
    text; it holds no markdown fence, and nothing is written to the
    console. *)
Theorem generate3DModelCode_returns_cleaned_answer (prompt : JsString) (r r' : Remote)
    (code : JsString) :
  generate3DModelCode prompt r = (Normal code, r') ->
  exists key text,
    let request :=
      {| request_model := "gemini-3-pro-preview";
         request_contents :=
           js "Create a high-quality, detailed Three.js procedural generator for: "
           ++ prompt
           ++ js ". Ensure characters are volumetric and stylized (not stick figures).";
         request_systemInstruction := SYSTEM_INSTRUCTION;
         request_temperature := 0.7%Q;
         request_maxOutputTokens := 8192 |} in
    API_KEY = Some key /\ key <> [] /\
    generateContent key (requests r) request = Normal text /\
    code = match text with Some answer => cleanup answer | None => [] end /\
    requests r' = requests r ++ [request] /\
    remote_console r' = remote_console r /\
    ~ occurs (js "```") code.
Proof.
  rewrite generate3DModelCode_run. cbv zeta.
  destruct API_KEY as [[|c key]|]; try discriminate.
  destruct (generateContent _ _ _) as [text|e] eqn:Eg; [|discriminate].
  intros E. inversion E; subst code r'; clear E. exists (c :: key), text. cbv zeta.
  split; [reflexivity|]. split; [discriminate|]. split; [exact Eg|].
  split; [reflexivity|]. split; [reflexivity|]. split; [reflexivity|].
  destruct text as [answer|]; [apply cleanup_fenceless | now apply occurs_nil].
Qed.

(** X16. When [generate3DModelCode] throws, it has written the error it
    throws to the console, once, under "Gemini API Error:".  Either the key
    is missing or empty, the error says so and no request was made; or one
    request was made and the error is the one the model rejected it with. *)
Theorem generate3DModelCode_reports_failures (prompt : JsString) (r r' : Remote)
    (e : Thrown) :
  generate3DModelCode prompt r = (Throw e, r') ->
  remote_console r' = remote_console r ++ [console_error "Gemini API Error:" (Some e)] /\
  ((API_KEY = None \/ API_KEY = Some []) /\
   e = Error "Error" "API Key is missing" /\ requests r' = requests r
   \/
   exists key request,
     API_KEY = Some key /\ key <> [] /\
     generateContent key (requests r) request = Throw e /\
     request_contents request =
       js "Create a high-quality, detailed Three.js procedural generator for: "
       ++ prompt
       ++ js ". Ensure characters are volumetric and stylized (not stick figures)." /\
     requests r' = requests r ++ [request]).
Proof.
  rewrite generate3DModelCode_run. cbv zeta.
  destruct API_KEY as [[|c key]|] eqn:Ek.
  - intros E. inversion E; subst e r'; clear E. simpl. rewrite app_nil_r. auto 6.
  - destruct (generateContent _ _ _) as [text|e'] eqn:Eg; [discriminate|].
    intros E. inversion E; subst e' r'; clear E. simpl. split; [reflexivity|].
    right. eexists _, _. split; [reflexivity|]. split; [discriminate|].
    split; [exact Eg|]. split; reflexivity.
  - intros E. inversion E; subst e r'; clear E. simpl. rewrite app_nil_r. auto 6.
Qed.

(** X17. Without a key, [generate3DModelCode] makes no request, whatever
    the prompt: it throws "API Key is missing", after writing that error to
    the console. *)
Theorem generate3DModelCode_needs_a_key (prompt : JsString) (r : Remote) :
  API_KEY = None \/ API_KEY = Some [] ->
  generate3DModelCode prompt r =
  (Throw (Error "Error" "API Key is missing"),
   {| requests := requests r;
      remote_console := remote_console r ++
        [console_error "Gemini API Error:" (Some (Error "Error" "API Key is missing"))] |}).
Proof.
  intros Hk. rewrite generate3DModelCode_run. cbv zeta.
  destruct Hk as [-> | ->]; now rewrite app_nil_r.
Qed.

End Generation.

(** ** The file viewer *)

Lemma revoke_if_set_run (url : option nat) (s : ViewerPage) :
  revoke_if_set url s =
  {| uploadedFileUrl := uploadedFileUrl s; uploadedFileName := uploadedFileName s;
     objectURLs := objectURLs s; revocations := revocations s ++ option_list url;
     url_effect := url_effect s; modelViewer := modelViewer s |}.
Proof. destruct url; [reflexivity|]. simpl. rewrite app_nil_r. now destruct s. Qed.

Lemma urls_kept_initial : urls_kept initial_viewer.
Proof.
  unfold urls_kept. simpl. repeat split; try discriminate.
  - intros u Hu. lia.
  - intros u Hu. now apply elem_of_nil in Hu.
Qed.

(** The bookkeeping survives a change that makes no URL, keeps the file
    shown and revokes only URLs that were made and are not in use. *)
Lemma urls_kept_change (s s' : ViewerPage) (extra : list nat) :
  urls_kept s ->
  uploadedFileUrl s' = uploadedFileUrl s -> uploadedFileName s' = uploadedFileName s ->
  objectURLs s' = objectURLs s -> revocations s' = revocations s ++ extra ->
  (forall u, u ∈ extra -> (u < List.length (objectURLs s))%nat /\ uploadedFileUrl s <> Some u) ->
  (forall u, url_effect s' = Some (Some u) -> (u < List.length (objectURLs s))%nat) ->
  (forall v u, modelViewer s' = Some v -> viewer_fileUrl v = Some u ->
     (u < List.length (objectURLs s))%nat) ->
  urls_kept s'.
Proof.
  intros (K1 & K2 & K3 & K4 & K5 & K6) Eu En Eo Er Hx He Hv.
  unfold urls_kept. rewrite Eu, En, Eo, Er. repeat split.
  - intros Hin. apply elem_of_app in Hin as [Hin|Hin]; [now apply (K1 u)|].
    now apply (Hx u Hin).
  - now apply K1.
  - intros u Hl Hn. apply elem_of_app. left. now apply K2.
  - exact K3.
  - intros u Hin. apply elem_of_app in Hin as [Hin|Hin]; [now apply K4 | now apply Hx].
  - exact He.
  - exact Hv.
Qed.

Lemma shown_url_was_made (s : ViewerPage) (u : nat) :
  urls_kept s -> uploadedFileUrl s = Some u -> (u < List.length (objectURLs s))%nat.
Proof.
  intros (K1 & _) Hu. destruct (K1 u Hu) as (_ & file & Hf & _).
  now apply lookup_lt_Some in Hf.
Qed.

Lemma ModelViewer_render_fileUrl (fileUrl : option nat) (mounted : option ModelViewer) :
  viewer_fileUrl (ModelViewer_render fileUrl mounted) = fileUrl.
Proof.
  unfold ModelViewer_render. destruct mounted as [v|]; [|reflexivity].
  destruct (bool_decide (viewer_fileUrl v = fileUrl)) eqn:E; [|reflexivity].
  now apply bool_decide_eq_true in E.
Qed.

Lemma urls_kept_render (m : ViewMode) (s : ViewerPage) :
  urls_kept s -> urls_kept (render_viewer m s).
Proof.
  intros Hk. pose proof Hk as (K1 & K2 & K3 & K4 & K5 & K6).
  set (s1 := match m with
             | viewer =>
                 set_modelViewer
                   (Some (ModelViewer_render (uploadedFileUrl s) (modelViewer s))) s
             | generator => set_modelViewer None s
             end).
  assert (Hv : forall v u, modelViewer s1 = Some v -> viewer_fileUrl v = Some u ->
                 (u < List.length (objectURLs s))%nat).
  { intros v u Hv Hu. destruct m; simpl in Hv; [discriminate|].
    inversion Hv; subst v. rewrite ModelViewer_render_fileUrl in Hu.
    now apply shown_url_was_made. }
  assert (E1 : uploadedFileUrl s1 = uploadedFileUrl s /\
               uploadedFileName s1 = uploadedFileName s /\
               objectURLs s1 = objectURLs s /\ revocations s1 = revocations s /\
               url_effect s1 = url_effect s) by (destruct m; now repeat split).
  destruct E1 as (Eu & En & Eo & Er & Ee).
  unfold render_viewer. fold s1. rewrite Ee, Eu.
  destruct (url_effect s) as [seen|] eqn:Es.
  - destruct (bool_decide (seen = uploadedFileUrl s)) eqn:Eb.
    + apply (urls_kept_change s s1 []); auto.
      * now rewrite app_nil_r.
      * intros u Hu. now apply elem_of_nil in Hu.
      * intros u. rewrite Ee. apply K5.
    + apply bool_decide_eq_false in Eb. rewrite revoke_if_set_run.
      apply (urls_kept_change s _ (option_list seen)); simpl; auto.
      * now rewrite Er.
      * intros u Hu. destruct seen as [u'|]; [|now apply elem_of_nil in Hu].
        apply list_elem_of_singleton in Hu as ->. split; [now apply K5 | congruence].
      * intros u Hu. inversion Hu. now apply shown_url_was_made.
  - apply (urls_kept_change s _ []); simpl; auto.
    + now rewrite app_nil_r.
    + intros u Hu. now apply elem_of_nil in Hu.
    + intros u Hu. inversion Hu. now apply shown_url_was_made.
Qed.

Lemma urls_kept_step (e : ViewerEvent) (s : ViewerPage) :
  urls_kept s -> urls_kept (viewer_step e s).
Proof.
  intros Hk. pose proof Hk as (K1 & K2 & K3 & K4 & K5 & K6).
  destruct e as [[file|]| | | |m]; simpl.
  - (* a file was chosen *)
    unfold handleFileUpload. rewrite revoke_if_set_run. unfold setUploadedFile, urls_kept.
    simpl. rewrite length_app. simpl.
    assert (Hold : forall u, u ∈ option_list (uploadedFileUrl s) ->
                     (u < List.length (objectURLs s))%nat).
    { intros u Hu. destruct (uploadedFileUrl s) as [u'|] eqn:E; [|now apply elem_of_nil in Hu].
      apply list_elem_of_singleton in Hu as ->. now apply shown_url_was_made. }
    repeat split.
    + inversion H; subst u. intros Hin. apply elem_of_app in Hin as [Hin|Hin].
      * specialize (K4 _ Hin). lia.
      * specialize (Hold _ Hin). lia.
    + inversion H; subst u. exists file. split; [|reflexivity].
      now rewrite lookup_app_r, Nat.sub_diag by lia.
    + intros u Hl Hn. assert (Hlt : (u < List.length (objectURLs s))%nat).
      { destruct (decide (u = List.length (objectURLs s))) as [->|]; [congruence | lia]. }
      apply elem_of_app.
      destruct (decide (uploadedFileUrl s = Some u)) as [->|Hne];
        [right; now apply list_elem_of_singleton | left; now apply K2].
    + discriminate.
    + intros u Hin. apply elem_of_app in Hin as [Hin|Hin].
      * specialize (K4 _ Hin). lia.
      * specialize (Hold _ Hin). lia.
    + intros u Hu. specialize (K5 _ Hu). lia.
    + intros v u Hv Hu. specialize (K6 _ _ Hv Hu). lia.
  - exact Hk.
  - (* the file was cleared *)
    unfold clearUploadedFile. rewrite revoke_if_set_run. unfold setUploadedFile, urls_kept.
    simpl. repeat split; try discriminate.
    + intros u Hl _. apply elem_of_app.
      destruct (decide (uploadedFileUrl s = Some u)) as [->|Hne];
        [right; now apply list_elem_of_singleton | left; now apply K2].
    + intros u Hin. apply elem_of_app in Hin as [Hin|Hin]; [now apply K4|].
      destruct (uploadedFileUrl s) as [u'|] eqn:E; [|now apply elem_of_nil in Hin].
      apply list_elem_of_singleton in Hin as ->. now apply shown_url_was_made.
    + exact K5.
    + exact K6.
  - apply (urls_kept_change s _ []); simpl; auto.
    + now rewrite app_nil_r.
    + intros u Hu. now apply elem_of_nil in Hu.
    + intros v u Hv. destruct (modelViewer s) as [v0|] eqn:E; [|discriminate].
      inversion Hv; subst v. intros Hu. apply (K6 v0 u eq_refl).
      revert Hu. unfold click. destruct (viewer_fileUrl v0) eqn:Ef; simpl; congruence.
  - apply (urls_kept_change s _ []); simpl; auto.
    + now rewrite app_nil_r.
    + intros u Hu. now apply elem_of_nil in Hu.
    + intros v u Hv. destruct (modelViewer s) as [v0|] eqn:E; [|discriminate].
      inversion Hv; subst v. intros Hu. apply (K6 v0 u eq_refl).
      revert Hu. unfold click. destruct (viewer_fileUrl v0) eqn:Ef; simpl; congruence.
  - now apply urls_kept_render.
Qed.

Lemma urls_kept_run (es : list ViewerEvent) (s : ViewerPage) :
  urls_kept s -> urls_kept (viewer_run es s).
Proof.
  revert s. induction es as [|e es IH]; intros s Hk; [exact Hk|].
  apply (IH (viewer_step e s)). now apply urls_kept_step.
Qed.

(** X18. The viewer leaks no object URL and never shows a revoked one:
    whatever files were chosen or cleared and whenever the page rendered,
    the URL in use was not revoked and is that of the file whose name is
    shown, every other URL that was made has been revoked, and no name is
    shown without a file. *)
Theorem object_urls_are_accounted_for (es : list ViewerEvent) :
  let s := viewer_run es initial_viewer in
  (forall u, uploadedFileUrl s = Some u ->
     (u ∉ revocations s) /\
     exists file, objectURLs s !! u = Some file /\ file_name file = uploadedFileName s) /\
  (forall u, (u < List.length (objectURLs s))%nat -> uploadedFileUrl s <> Some u ->
     u ∈ revocations s) /\
  (uploadedFileUrl s = None -> uploadedFileName s = []).
Proof.
  intros s. destruct (urls_kept_run es initial_viewer urls_kept_initial) as (K1 & K2 & K3 & _).
  split; [exact K1|]. split; [exact K2 | exact K3].
Qed.

(** X19. A URL that is replaced or cleared is revoked twice: once by the
    handler, and once more, at the next render, by the function the effect
    of App on [uploadedFileUrl] returned when it last ran. *)
Theorem replaced_url_is_revoked_twice (es : list ViewerEvent) (u : nat) (file : File)
    (m : ViewMode) :
  let s := viewer_run es initial_viewer in
  uploadedFileUrl s = Some u -> url_effect s = Some (Some u) ->
  revocations (viewer_run [FileChosen (Some file); ViewerRendered m] s) =
    revocations s ++ [u; u] /\
  revocations (viewer_run [ClearClicked; ViewerRendered m] s) = revocations s ++ [u; u].
Proof.
  intros s Hu He.
  pose proof (urls_kept_run es initial_viewer urls_kept_initial) as Hk. fold s in Hk.
  pose proof (shown_url_was_made s u Hk Hu) as Hlt.
  unfold viewer_run. simpl.
  unfold handleFileUpload, clearUploadedFile, render_viewer. rewrite !revoke_if_set_run.
  split.
  - destruct m; simpl; rewrite He, Hu;
      (rewrite bool_decide_eq_false_2 by (intros E; inversion E; lia));
      simpl; now rewrite <- app_assoc.
  - destruct m; simpl; rewrite He, Hu;
      (rewrite bool_decide_eq_false_2 by discriminate);
      simpl; now rewrite <- app_assoc.
Qed.

(** X20. A new file resets the controls of the viewer: after a file is
    chosen, the next render of [ModelViewer] leaves auto-rotation and
    wireframe off, whatever they were, for the URL of the new file; the grid
    keeps its setting, and is on when the viewer was not mounted. *)
Theorem new_file_resets_the_viewer (es : list ViewerEvent) (file : File) :
  let s := viewer_run es initial_viewer in
  let s' := viewer_run [FileChosen (Some file); ViewerRendered viewer] s in
  exists v',
    modelViewer s' = Some v' /\
    uploadedFileUrl s' = Some (List.length (objectURLs s)) /\
    viewer_fileUrl v' = uploadedFileUrl s' /\
    autoRotate v' = false /\ viewer_wireframe v' = false /\
    showGrid v' = match modelViewer s with Some v => showGrid v | None => true end.
Proof.
  intros s s'.
  pose proof (urls_kept_run es initial_viewer urls_kept_initial) as Hk. fold s in Hk.
  destruct Hk as (_ & _ & _ & _ & _ & K6).
  exists (ModelViewer_render (Some (List.length (objectURLs s))) (modelViewer s)).
  assert (E : modelViewer s' =
              Some (ModelViewer_render (Some (List.length (objectURLs s))) (modelViewer s)) /\
              uploadedFileUrl s' = Some (List.length (objectURLs s))).
  { subst s'. unfold viewer_run. simpl. unfold handleFileUpload, render_viewer.
    rewrite revoke_if_set_run. simpl.
    destruct (url_effect s) as [seen|]; [destruct (bool_decide _)|];
      rewrite ?revoke_if_set_run; simpl; auto. }
  destruct E as (Em & Eu). rewrite Em, Eu, ModelViewer_render_fileUrl.
  split; [reflexivity|]. split; [reflexivity|]. split; [reflexivity|].
  unfold ModelViewer_render. destruct (modelViewer s) as [v|] eqn:Ev; [|now repeat split].
  rewrite bool_decide_eq_false_2; [now repeat split|].
  intros Hv. specialize (K6 v _ eq_refl Hv). lia.
Qed.

(** ** The buttons of the preview and of the mode *)

Section Buttons.
Context `{Runtime}.


(** X21. A click on the wireframe button repaints the scene shown and does
    nothing else.  On a page whose preview shows a scene drawn with the flag
    of the button, the click and the render that follows give every material
    of every mesh of the scene the new flag; the scene is neither evaluated
    again nor released, and App is not touched. *)
Theorem wireframe_click_repaints_the_scene (s : System) (p : ScenePreview)
    (g : GeneratedObject) (scene : Object3D) :
  preview s = Some p -> generatedObject p = Some g -> group g = Some scene ->
  (forall drawn, modelObject g = Some drawn -> snd drawn = wireframe_state p) ->
  let s' := snd (run [WireframeToggled; Render false] s) in
  let v := negb (wireframe_state p) in
  materials (world s') = paint v (leaf_materials scene) (materials (world s)) /\
  (forall mat, mat ∈ leaf_materials scene ->
     wireframe (materials (world s') !!! mat) = v /\
     needsUpdate (materials (world s') !!! mat) = true) /\
  app s' = app s /\ disposed (world s') = disposed (world s) /\
  console (world s') = console (world s) /\
  preview s' =
    Some {| wireframe_state := v;
            generatedObject :=
              Some {| group := Some scene; effect_deps := effect_deps g;
                      effect_cleanup := effect_cleanup g;
                      modelObject := Some (scene, v) |} |}.
Proof.
  intros Hp Hg Hs Hd s' v.
  assert (E : s' =
    set_preview
      (Some {| wireframe_state := v;
               generatedObject :=
                 Some {| group := Some scene; effect_deps := effect_deps g;
                         effect_cleanup := effect_cleanup g;
                         modelObject := Some (scene, v) |} |})
      (set_world
         (set_materials (paint v (leaf_materials scene) (materials (world s))) (world s)) s)).
  { subst s'. rewrite run_cons. simpl step. unfold modify at 1. simpl snd at 2.
    rewrite run_cons. simpl step.
    unfold render_ScenePreview, bind, gets. simpl. rewrite Hp. simpl.
    unfold the_world, zoom, ScenePreview_rerender. simpl. rewrite Hg.
    unfold bind, GeneratedObject_body, bind, ModelObject_render. rewrite Hs.
    assert (Hu : match modelObject g with
                 | Some (g', wireframe') =>
                     Nat.eqb (id scene) (id g') && Bool.eqb (negb (wireframe_state p)) wireframe'
                 | None => false
                 end = false).
    { destruct (modelObject g) as [[g' w']|] eqn:Em; [|reflexivity].
      specialize (Hd _ eq_refl). simpl in Hd. subst w'.
      destruct (wireframe_state p); simpl; apply andb_false_r. }
    simpl. rewrite Hu. unfold bind. rewrite ModelObject_effect_run. reflexivity. }
  rewrite E. simpl. split; [reflexivity|]. split; [|now repeat split].
  intros mat Hm. rewrite paint_lookup_total by exact Hm. now split.
Qed.


End Buttons.

(** ** Downloads during a generation *)

Section Waiting.
Context `{Runtime}.





End Waiting.

(** ** More closed examples *)

Lemma executeGeneratedCode_returns_a_group_witness :
  class wrapped_mesh = Group /\
  forall w2, normalize (VObject3D wrapped_mesh) w2 = (Normal wrapped_mesh, w2).
Proof.
  assert (E : @executeGeneratedCode sample_runtime (js "(THREE) => new THREE.Mesh()")
                sample_world = (Normal (Some wrapped_mesh), set_object3DId 2 sample_world))
    by (vm_compute; reflexivity).
  exact (@executeGeneratedCode_returns_a_group sample_runtime _ _ _ _ E).
Defined.

Lemma normalization_keeps_the_leaves_witness :
  exists scene w',
    @executeGeneratedCode sample_runtime (js "(THREE) => new THREE.Mesh()") sample_world =
      (Normal (Some scene), w') /\
    leaves scene = leaves lone_mesh /\
    (forall w2, GeneratedObject_cleanup scene w2 =
                (Normal tt, set_disposed (disposed w2 ++ releases lone_mesh) w2)) /\
    (forall v w2, ModelObject_effect scene v w2 =
                  (Normal tt,
                   set_materials (paint v (leaf_materials lone_mesh) (materials w2)) w2)).
Proof.
  assert (Hr : @Returns sample_runtime (js "(THREE) => new THREE.Mesh()") sample_world
                 (VObject3D lone_mesh) (set_object3DId 1 sample_world))
    by (eexists _, _, _; repeat split; reflexivity).
  exact (@normalization_keeps_the_leaves sample_runtime _ _ _ _ Hr).
Defined.

Lemma generating_has_a_live_request_witness :
  let s := snd (@run sample_runtime waiting_page_events (initial sample_world)) in
  exists c, abortControllerRef (app s) = Some c /\ live s c.
Proof.
  assert (Hg : status (app (snd (@run sample_runtime waiting_page_events
                                   (initial sample_world)))) = GENERATING)
    by (vm_compute; reflexivity).
  exact (@generating_has_a_live_request sample_runtime waiting_page_events sample_world Hg).
Defined.

Lemma at_most_one_live_request_witness :
  let s := snd (@run sample_runtime waiting_page_events (initial sample_world)) in
  live s 0 /\ 0%nat = 0%nat.
Proof.
  assert (Hl : live (snd (@run sample_runtime waiting_page_events (initial sample_world))) 0).
  { split; [eexists; reflexivity|]. apply not_elem_of_empty. }
  exact (conj Hl (@at_most_one_live_request sample_runtime waiting_page_events sample_world
                    0%nat 0%nat Hl Hl)).
Defined.

Lemma live_generation_publishes_witness :
  let s := snd (@run sample_runtime [Render true; Typed (js "a red cube")]
                  (initial sample_world)) in
  let s2 := snd (@run sample_runtime [Render true; Typed (js "a blue cube")]
                   (snd (@step sample_runtime GenerateClicked s))) in
  let s3 := snd (@step sample_runtime
                   (Settled (controllers s) (Normal (js "(THREE) => cube")) 5 6) s2) in
  generatedCode (app s3) = js "(THREE) => cube" /\ status (app s3) = SUCCESS /\
  history (app s3) =
    {| item_id := number_toString 5; item_prompt := prompt (app s);
       item_code := js "(THREE) => cube"; createdAt := 6 |} :: history (app s).
Proof.
  assert (Hp : trim (prompt (app (snd (@run sample_runtime
                 [Render true; Typed (js "a red cube")] (initial sample_world))))) <> [])
    by (vm_compute; discriminate).
  pose proof (@live_generation_publishes sample_runtime
                [Render true; Typed (js "a red cube")]
                [Render true; Typed (js "a blue cube")] sample_world
                (js "(THREE) => cube") 5 6 Hp eq_refl) as (Hc & Hs & Hh & _).
  exact (conj Hc (conj Hs Hh)).
Defined.

Lemma live_generation_fails_witness :
  let s := snd (@run sample_runtime [Render true; Typed (js "a red cube")]
                  (initial sample_world)) in
  let s2 := snd (@run sample_runtime [Render true]
                   (snd (@step sample_runtime GenerateClicked s))) in
  let s3 := snd (@step sample_runtime
                   (Settled (controllers s) (Throw (Error "ApiError" "quota exceeded")) 5 6)
                   s2) in
  status (app s3) = ERROR /\ generatedCode (app s3) = generatedCode (app s2).
Proof.
  assert (Hp : trim (prompt (app (snd (@run sample_runtime
                 [Render true; Typed (js "a red cube")] (initial sample_world))))) <> [])
    by (vm_compute; discriminate).
  pose proof (@live_generation_fails sample_runtime
                [Render true; Typed (js "a red cube")] [Render true] sample_world
                (Error "ApiError" "quota exceeded") 5 6 Hp eq_refl) as (Hs & Hc & _).
  exact (conj Hs Hc).
Defined.

Lemma cleanup_keeps_clean_code_witness :
  cleanup (js "(THREE) => cube") = js "(THREE) => cube".
Proof.
  assert (Hf : indexOf (js "```") (js "(THREE) => cube") = (-1)%Z) by (vm_compute; reflexivity).
  assert (Ht : trim (js "(THREE) => cube") = js "(THREE) => cube")
    by (vm_compute; reflexivity).
  assert (Hs : startsWith (js "(THREE)") (js "(THREE) => cube") = true)
    by (vm_compute; reflexivity).
  exact (cleanup_keeps_clean_code (js "(THREE) => cube") Hf Ht Hs).
Defined.

Lemma generate3DModelCode_returns_cleaned_answer_witness :
  let r' := snd (@generate3DModelCode sample_service (js "a red cube") fresh_remote) in
  exists key text,
    let request :=
      {| request_model := "gemini-3-pro-preview";
         request_contents :=
           js "Create a high-quality, detailed Three.js procedural generator for: "
           ++ js "a red cube"
           ++ js ". Ensure characters are volumetric and stylized (not stick figures).";
         request_systemInstruction := @SYSTEM_INSTRUCTION sample_service;
         request_temperature := 0.7%Q;
         request_maxOutputTokens := 8192 |} in
    @API_KEY sample_service = Some key /\ key <> [] /\
    @generateContent sample_service key (requests fresh_remote) request = Normal text /\
    js "(THREE) => cube" = match text with Some answer => cleanup answer | None => [] end /\
    requests r' = requests fresh_remote ++ [request] /\
    remote_console r' = remote_console fresh_remote /\
    ~ occurs (js "```") (js "(THREE) => cube").
Proof.
  assert (E : @generate3DModelCode sample_service (js "a red cube") fresh_remote =
              (Normal (js "(THREE) => cube"),
               snd (@generate3DModelCode sample_service (js "a red cube") fresh_remote)))
    by (vm_compute; reflexivity).
  exact (@generate3DModelCode_returns_cleaned_answer sample_service _ _ _ _ E).
Defined.

Lemma generate3DModelCode_reports_failures_witness :
  let r := snd (@generate3DModelCode sample_service (js "a red cube") fresh_remote) in
  let r' := snd (@generate3DModelCode sample_service (js "a blue cube") r) in
  remote_console r' =
    remote_console r ++
    [console_error "Gemini API Error:" (Some (Error "ApiError" "quota exceeded"))].
Proof.
  assert (E : @generate3DModelCode sample_service (js "a blue cube")
                (snd (@generate3DModelCode sample_service (js "a red cube") fresh_remote)) =
              (Throw (Error "ApiError" "quota exceeded"),
               snd (@generate3DModelCode sample_service (js "a blue cube")
                      (snd (@generate3DModelCode sample_service (js "a red cube")
                              fresh_remote)))))
    by (vm_compute; reflexivity).
  exact (proj1 (@generate3DModelCode_reports_failures sample_service _ _ _ _ E)).
Defined.

Lemma generate3DModelCode_needs_a_key_witness :
  @generate3DModelCode keyless_service (js "a red cube") fresh_remote =
  (Throw (Error "Error" "API Key is missing"),
   {| requests := [];
      remote_console :=
        [console_error "Gemini API Error:" (Some (Error "Error" "API Key is missing"))] |}).
Proof.
  exact (@generate3DModelCode_needs_a_key keyless_service (js "a red cube") fresh_remote
           (or_introl eq_refl)).
Defined.

Lemma replaced_url_is_revoked_twice_witness :
  let s := viewer_run file_chosen initial_viewer in
  revocations (viewer_run [FileChosen (Some {| file_name := js "ball.glb" |});
                           ViewerRendered viewer] s) = revocations s ++ [0; 0]%nat /\
  revocations (viewer_run [ClearClicked; ViewerRendered viewer] s) =
    revocations s ++ [0; 0]%nat.
Proof.
  exact (replaced_url_is_revoked_twice file_chosen 0 {| file_name := js "ball.glb" |} viewer
           eq_refl eq_refl).
Defined.

Lemma wireframe_click_repaints_the_scene_witness :
  let s := snd (@step sample_runtime (Render false) cube_page) in
  let s' := snd (@run sample_runtime [WireframeToggled; Render false] s) in
  materials (world s') = paint true (leaf_materials cube_scene) (materials (world s)) /\
  (forall mat, mat ∈ leaf_materials cube_scene ->
     wireframe (materials (world s') !!! mat) = true /\
     needsUpdate (materials (world s') !!! mat) = true).
Proof.
  assert (Hp : preview (snd (@step sample_runtime (Render false) cube_page)) =
               Some {| wireframe_state := false; generatedObject := Some drawn_cube |})
    by (vm_compute; reflexivity).
  assert (Hd : forall drawn, modelObject drawn_cube = Some drawn -> snd drawn = false)
    by (intros drawn E; inversion E; reflexivity).
  pose proof (@wireframe_click_repaints_the_scene sample_runtime _ _ drawn_cube cube_scene
                Hp eq_refl eq_refl Hd) as (Hm & Hl & _).
  exact (conj Hm Hl).
Defined.



(** What the cleanup does to an answer wrapped in a fence, and to an answer
    that declares its function with the keyword: the keyword is cut off. *)
Example cleanup_of_a_fenced_answer :
  cleanup (js "```javascript (THREE) => cube ```") = js "(THREE) => cube" /\
  cleanup (js "function (THREE) { return cube; }") = js "(THREE) { return cube; }".
Proof. vm_compute. split; reflexivity. Qed.
